(** * Overseer: a shallow embedding of the reconnaissance pipeline

  The development follows the layout of the repository:
  - [PyStr]: the operations of Python's [str] that the sources call;
  - [CtEnum]: [modules/ct_enum.py], the certificate-transparency enumerator;
  - [DnsResolver]: [modules/dns_resolver.py];
  - [GeoIntel]: [modules/geo_intel.py];
  - [MapGenerator]: the marker classification of [modules/map_generator.py];
  - [Overseer]: the orchestrator [overseer.py];
  - [Spec]: the predicates in which the properties are stated;
  - [Scenarios]: concrete providers, name servers and runs.

  Everything the program reads from the network (HTTP responses, DNS
  answers) and everything the runtime decides (the order in which futures
  complete, the iteration order of a [set]) is an explicit argument of the
  embedded functions; their observable calls are collected in traces. *)

From Stdlib Require Import NArith ZArith QArith Lia Bool Ascii DecimalString.
From stdpp Require Import base option list sorting gmap sets strings.

Local Open Scope string_scope.
Local Open Scope list_scope.
Local Open Scope nat_scope.

(** ** Python strings *)

Module PyStr.

(** A [str] is modelled by [string]: one [ascii] per code point, so the
    model covers the code points below 256. *)

Definition code (c : ascii) : N := Ascii.N_of_ascii c.

Definition in_range (lo hi : N) (c : ascii) : bool :=
  ((lo <=? code c) && (code c <=? hi))%N.

(** [str.isspace] on the code points below 256. *)
Definition isspace (c : ascii) : bool :=
  in_range 9 13 c || in_range 28 32 c
  || (code c =? 133)%N || (code c =? 160)%N.

(** [str.lower], one code point at a time. *)
Definition lower_char (c : ascii) : ascii :=
  if in_range 65 90 c
     || (in_range 192 222 c && negb (code c =? 215)%N)
  then Ascii.ascii_of_N (code c + 32)
  else c.

Fixpoint lower (s : string) : string :=
  match s with
  | EmptyString => EmptyString
  | String c s' => String (lower_char c) (lower s')
  end.

Fixpoint lstrip (s : string) : string :=
  match s with
  | EmptyString => EmptyString
  | String c s' => if isspace c then lstrip s' else s
  end.

Fixpoint rstrip (s : string) : string :=
  match s with
  | EmptyString => EmptyString
  | String c s' =>
      match rstrip s' with
      | EmptyString => if isspace c then EmptyString else String c EmptyString
      | r => String c r
      end
  end.

(** [s.strip()] *)
Definition strip (s : string) : string := lstrip (rstrip s).

(** [s.startswith(p)] *)
Definition startswith (s p : string) : bool := String.prefix p s.

(** [s.endswith(d)]: [s] is [d], or the rest of [s] ends with [d]. *)
Fixpoint endswith (s d : string) : bool :=
  String.eqb s d
  || match s with
     | EmptyString => false
     | String _ s' => endswith s' d
     end.

(** [needle in hay] *)
Fixpoint contains (needle hay : string) : bool :=
  String.prefix needle hay
  || match hay with
     | EmptyString => false
     | String _ hay' => contains needle hay'
     end.

(** [s.replace(old, new)]: the occurrences of [old] are found from left to
    right and do not overlap; [skip] counts the characters of an
    occurrence still to be dropped. *)
Fixpoint replace_from (old new : string) (skip : nat) (s : string) : string :=
  match s with
  | EmptyString => EmptyString
  | String c s' =>
      match skip with
      | S k => replace_from old new k s'
      | O =>
          if String.prefix old s
          then new +:+ replace_from old new (String.length old - 1) s'
          else String c (replace_from old new 0 s')
      end
  end.

Fixpoint interleave (new s : string) : string :=
  match s with
  | EmptyString => new
  | String c s' => new +:+ String c (interleave new s')
  end.

Definition replace (old new s : string) : string :=
  match old with
  | EmptyString => interleave new s
  | _ => replace_from old new 0 s
  end.

(** [s.split(sep)] for a separator of one character. *)
Fixpoint split (sep : ascii) (s : string) : list string :=
  match s with
  | EmptyString => [EmptyString]
  | String c s' =>
      if Ascii.eqb c sep then EmptyString :: split sep s'
      else match split sep s' with
           | h :: t => String c h :: t
           | [] => [String c EmptyString]
           end
  end.

(** Truth value of a string: [if s:] *)
Definition truthy (s : string) : bool :=
  match s with EmptyString => false | _ => true end.

Definition newline : ascii := Ascii.ascii_of_N 10.

End PyStr.

(** ** The Python runtime as the sources use it *)

Module Py.

(** An exception of class [Exception]: its class name and [str(e)]. *)
Record exn := Exception { exn_class : string; exn_str : string }.

Inductive result (A : Type) : Type :=
  | Ok (a : A)
  | Raise (e : exn).
Arguments Ok {A} a.
Arguments Raise {A} e.

Definition AttributeError : exn := Exception "AttributeError" "object has no attribute".
Definition TypeError : exn := Exception "TypeError" "object is not iterable".
Definition ValueError (msg : string) : exn := Exception "ValueError" msg.

(** What a run does to the outside world, in order. *)
Inductive event : Type :=
  | HttpGet (url : string)
  | HttpPost (url : string) (payload : list string)
  | Sleep (seconds : Q)
  | DnsQuery (qname rdtype : string).

Definition trace := list event.

(** [for x in xs: body] over a mutable object [s]: the loop stops at the
    first exception, and what was done to [s] before stays done. *)
Fixpoint for_each {X S : Type} (body : X → S → S * option exn)
    (xs : list X) (s : S) : S * option exn :=
  match xs with
  | [] => (s, None)
  | x :: xs' =>
      match body x s with
      | (s', None) => for_each body xs' s'
      | (s', Some e) => (s', Some e)
      end
  end.

End Py.

(** ** modules/ct_enum.py *)

Module CtEnum.
Import PyStr.

(** The character classes of
    [r'^[a-z0-9][a-z0-9\-\.]*[a-z0-9]$']. *)
Definition is_alnum (c : ascii) : bool :=
  in_range 97 122 c || in_range 48 57 c.

Definition is_inner (c : ascii) : bool :=
  is_alnum c || (code c =? 45)%N || (code c =? 46)%N.

(** [$] without [re.MULTILINE]: at the end of the string, or just before
    a line feed that is the last character. *)
Definition at_dollar (s : string) : bool :=
  match s with
  | EmptyString => true
  | String c EmptyString => Ascii.eqb c newline
  | _ => false
  end.

(** [[a-z0-9\-\.]*[a-z0-9]$] from the current position: either this
    character is the final [[a-z0-9]] and [$] holds after it, or it is
    taken by the starred class. *)
Fixpoint match_rest (s : string) : bool :=
  match s with
  | EmptyString => false
  | String c s' =>
      (is_alnum c && at_dollar s') || (is_inner c && match_rest s')
  end.

(** [re.match(r'^[a-z0-9][a-z0-9\-\.]*[a-z0-9]$', name)] as a truth value *)
Definition re_match_name (name : string) : bool :=
  match name with
  | EmptyString => false
  | String c s' => is_alnum c && match_rest s'
  end.

Definition _clean_subdomain (name domain : string) : option string :=
  let name := lower (strip name) in
  let name := if startswith name "*" then replace "*." "" name else name in
  if negb (endswith name domain) then None
  else if String.eqb name domain then None
  else if negb (re_match_name name) then None
  else Some name.

Definition CRT_SH_URL (domain : string) : string :=
  "https://crt.sh/?q=" +:+ domain +:+ "&output=json".
Definition CERTSPOTTER_URL (domain : string) : string :=
  "https://api.certspotter.com/v1/issuances?domain=" +:+ domain
  +:+ "&include_subdomains=true&expand=dns_names".
Definition HACKERTARGET_URL (domain : string) : string :=
  "https://api.hackertarget.com/hostsearch/?q=" +:+ domain.

Definition MAX_RETRIES : nat := 3.
Definition RETRY_DELAY : Z := 2.

(** [clean_name = self._clean_subdomain(name, domain)];
    [if clean_name: subdomains.add(clean_name)] *)
Definition add_clean (domain name : string) (subdomains : gset string)
    : gset string :=
  match _clean_subdomain name domain with
  | Some clean_name =>
      if truthy clean_name then subdomains ∪ {[ clean_name ]} else subdomains
  | None => subdomains
  end.

Definition add_names (domain : string) (names : list string)
    (subdomains : gset string) : gset string :=
  foldl (λ s name, add_clean domain name s) subdomains names.

(** *** What crt.sh can answer *)

(** An element of the JSON array. *)
Inductive crt_entry : Type :=
  | NameValue (name_value : string) (* an object whose name_value is a string *)
  | NoNameValue                     (* an object without name_value *)
  | NotAnEntry.                     (* no [.get], or a name_value without [.split] *)

Inductive crt_body : Type :=
  | BlankText                       (* [response.text.strip()] is empty *)
  | InvalidJson                     (* [response.json()] raises ValueError *)
  | JsonArray (data : list crt_entry)
  | JsonScalar.                     (* JSON that cannot be iterated *)

Inductive crt_response : Type :=
  | GetTimeout                      (* [requests.exceptions.Timeout] *)
  | GetError                        (* another [RequestException] from [get] *)
  | Response (status_code : Z) (body : crt_body).

(** [response.raise_for_status()] raises for 4xx and 5xx. *)
Definition raise_for_status (status_code : Z) : bool :=
  ((400 <=? status_code) && (status_code <? 600))%Z.

Definition crt_entry_body (domain : string) (entry : crt_entry)
    (subdomains : gset string) : gset string * option Py.exn :=
  match entry with
  | NameValue name_value =>
      (add_names domain (split newline name_value) subdomains, None)
  | NoNameValue => (add_names domain (split newline "") subdomains, None)
  | NotAnEntry => (subdomains, Some Py.AttributeError)
  end.

(** The body of [for attempt in range(self.MAX_RETRIES)]; [remaining]
    attempts are left, this one included.  [crtsh n] is what the [n]-th
    request of the run (from 0) meets. *)
Fixpoint crtsh_attempts (crtsh : nat → crt_response) (domain : string)
    (remaining attempt : nat) : Py.trace * Py.result (gset string) :=
  match remaining with
  | O => ([], Py.Ok ∅)
  | S remaining' =>
      let retry (pause : Py.trace) :=
        let '(t, r) := crtsh_attempts crtsh domain remaining' (S attempt) in
        (Py.HttpGet (CRT_SH_URL domain) :: pause ++ t, r) in
      let stop (r : Py.result (gset string)) :=
        ([Py.HttpGet (CRT_SH_URL domain)], r) in
      match crtsh attempt with
      | Response status_code body =>
          if (status_code =? 503)%Z then
            retry (if decide (attempt < MAX_RETRIES - 1)
                   then [Py.Sleep (inject_Z (RETRY_DELAY * (Z.of_nat attempt + 1)))]
                   else [])
          else if raise_for_status status_code then stop (Py.Ok ∅)
          else match body with
               | BlankText => stop (Py.Ok ∅)
               | InvalidJson => stop (Py.Ok ∅)
               | JsonScalar => stop (Py.Raise Py.TypeError)
               | JsonArray data =>
                   match Py.for_each (crt_entry_body domain) data ∅ with
                   | (subdomains, None) => stop (Py.Ok subdomains)
                   | (_, Some e) => stop (Py.Raise e)
                   end
               end
      | GetTimeout =>
          retry (if decide (attempt < MAX_RETRIES - 1)
                 then [Py.Sleep (inject_Z RETRY_DELAY)]
                 else [])
      | GetError => stop (Py.Ok ∅)
      end
  end.

Definition _query_crtsh (crtsh : nat → crt_response) (domain : string)
    : Py.trace * Py.result (gset string) :=
  crtsh_attempts crtsh domain MAX_RETRIES 0.

(** *** What CertSpotter can answer *)

Inductive cs_name : Type :=
  | DnsName (name : string)
  | NotAString.                     (* [name.strip()] raises *)

Inductive cs_entry : Type :=
  | DnsNames (dns_names : list cs_name)
  | NoDnsNames                      (* an object without dns_names *)
  | NotAnIssuance.                  (* no [.get], or dns_names not iterable *)

Inductive cs_response : Type :=
  | CsFailed                        (* get, raise_for_status, json or the iteration raise *)
  | CsJson (data : list cs_entry).

Definition cs_name_body (domain : string) (name : cs_name)
    (subdomains : gset string) : gset string * option Py.exn :=
  match name with
  | DnsName name => (add_clean domain name subdomains, None)
  | NotAString => (subdomains, Some Py.AttributeError)
  end.

Definition cs_entry_body (domain : string) (entry : cs_entry)
    (subdomains : gset string) : gset string * option Py.exn :=
  match entry with
  | DnsNames dns_names => Py.for_each (cs_name_body domain) dns_names subdomains
  | NoDnsNames => (subdomains, None)
  | NotAnIssuance => (subdomains, Some Py.AttributeError)
  end.

(** [except Exception] returns the set as it stands. *)
Definition _query_certspotter (certspotter : cs_response) (domain : string)
    : Py.trace * gset string :=
  ([Py.HttpGet (CERTSPOTTER_URL domain)],
   match certspotter with
   | CsFailed => ∅
   | CsJson data => (Py.for_each (cs_entry_body domain) data ∅).1
   end).

(** *** What HackerTarget can answer *)

Inductive ht_response : Type :=
  | HtFailed                        (* get or raise_for_status raise *)
  | HtText (text : string).

Definition ht_line (domain line : string) (subdomains : gset string)
    : gset string :=
  if contains "," line && negb (contains "error" (lower line)) then
    let subdomain := strip (hd "" (split "," line)) in
    add_clean domain subdomain subdomains
  else subdomains.

Definition _query_hackertarget (hackertarget : ht_response) (domain : string)
    : Py.trace * gset string :=
  ([Py.HttpGet (HACKERTARGET_URL domain)],
   match hackertarget with
   | HtFailed => ∅
   | HtText text =>
       let lines := split newline (strip text) in
       foldl (λ s line, ht_line domain line s) ∅ lines
   end).

(** The three providers as one run meets them. *)
Record sources : Type := Sources {
  crtsh : nat → crt_response;
  certspotter : cs_response;
  hackertarget : ht_response
}.

Definition enumerate (w : sources) (domain : string)
    : Py.trace * Py.result (gset string) :=
  let subdomains : gset string := ∅ in
  match _query_crtsh (crtsh w) domain with
  | (t1, Py.Raise e) => (t1, Py.Raise e)
  | (t1, Py.Ok crt_results) =>
      let subdomains := subdomains ∪ crt_results in
      let '(t2, subdomains) :=
        if decide (size subdomains < 10) then
          let '(t, certspotter_results) :=
            _query_certspotter (certspotter w) domain in
          (t, subdomains ∪ certspotter_results)
        else ([], subdomains) in
      let '(t3, subdomains) :=
        if decide (size subdomains < 5) then
          let '(t, hackertarget_results) :=
            _query_hackertarget (hackertarget w) domain in
          (t, subdomains ∪ hackertarget_results)
        else ([], subdomains) in
      (t1 ++ t2 ++ t3, Py.Ok subdomains)
  end.

End CtEnum.

(** ** modules/dns_resolver.py *)

Module DnsResolver.

Record DNSResult : Type := mkDNSResult {
  subdomain : string;
  ip : option string;
  is_alive : bool;
  cname : option string;
  error : option string
}.

(** An IPv4 address, the data of an A record, and its text [str(rdata)]. *)
Record ipv4 : Type := IPv4 { o1 : N; o2 : N; o3 : N; o4 : N }.

Definition dec (n : N) : string := NilZero.string_of_uint (N.to_uint n).

Definition ipv4_str (a : ipv4) : string :=
  dec (o1 a) +:+ "." +:+ dec (o2 a) +:+ "." +:+ dec (o3 a) +:+ "." +:+ dec (o4 a).

(** What [self.resolver.resolve(name, rdtype)] gives: the answer, whose
    element 0 is [first], or one of dnspython's exceptions. *)
Inductive reply (R : Type) : Type :=
  | Answer (first : R) (others : list R)
  | NXDOMAIN
  | NoAnswer
  | Timeout
  | Failure (e : Py.exn).
Arguments Answer {R} first others.
Arguments NXDOMAIN {R}.
Arguments NoAnswer {R}.
Arguments Timeout {R}.
Arguments Failure {R} e.

(** The name servers as one run meets them. *)
Record dns : Type := Dns {
  resolve_A : string → reply ipv4;
  resolve_CNAME : string → reply string
}.

Record DNSResolver : Type := mkDNSResolver {
  timeout : Q;
  max_workers : Z;
  resolver : dns
}.

Definition resolve_single (self : DNSResolver) (subdomain : string)
    : Py.trace * DNSResult :=
  match resolve_A (resolver self) subdomain with
  | Answer first _ =>
      let ip := ipv4_str first in
      let cname :=
        match resolve_CNAME (resolver self) subdomain with
        | Answer first _ => Some first
        | _ => None
        end in
      ([Py.DnsQuery subdomain "A"; Py.DnsQuery subdomain "CNAME"],
       mkDNSResult subdomain (Some ip) true cname None)
  | NXDOMAIN =>
      ([Py.DnsQuery subdomain "A"],
       mkDNSResult subdomain None false None (Some "NXDOMAIN"))
  | NoAnswer =>
      ([Py.DnsQuery subdomain "A"],
       mkDNSResult subdomain None false None (Some "NoAnswer"))
  | Timeout =>
      ([Py.DnsQuery subdomain "A"],
       mkDNSResult subdomain None false None (Some "Timeout"))
  | Failure e =>
      ([Py.DnsQuery subdomain "A"],
       mkDNSResult subdomain None false None (Some (Py.exn_str e)))
  end.

(** [executor.submit(fn, sub)]: a future holds what the call of [fn]
    returned or raised. *)
Definition submit_all (fn : string → Py.result DNSResult)
    (subdomains : list string) : list (string * Py.result DNSResult) :=
  map (λ sub, (sub, fn sub)) subdomains.

(** The body of [for future in as_completed(future_to_sub)]. *)
Definition collect (future : string * Py.result DNSResult)
    (results : gmap string DNSResult) : gmap string DNSResult :=
  let '(subdomain, outcome) := future in
  match outcome with
  | Py.Ok result => <[subdomain := result]> results
  | Py.Raise e =>
      <[subdomain := mkDNSResult subdomain None false None (Some (Py.exn_str e))]>
        results
  end.

(** [for future in as_completed(future_to_sub)]: [completed] names the
    futures by their position in the order of submission. *)
Definition collect_all (future_to_sub : list (string * Py.result DNSResult))
    (completed : list nat) (results : gmap string DNSResult)
    : gmap string DNSResult :=
  foldl (λ results i,
           match future_to_sub !! i with
           | Some future => collect future results
           | None => results
           end) results completed.

(** [resolve_bulk] for any callable [fn] given to the pool.
    [completed] is the order in which [as_completed] yields the futures,
    each named by its position in the order of submission.
    [ThreadPoolExecutor] raises ValueError unless [max_workers] is
    positive. *)
Definition resolve_bulk_with (fn : string → Py.result DNSResult)
    (max_workers : Z) (completed : list nat) (subdomains : list string)
    : Py.result (gmap string DNSResult) :=
  if (max_workers <=? 0)%Z
  then Py.Raise (Py.ValueError "max_workers must be greater than 0")
  else
    let future_to_sub := submit_all fn subdomains in
    Py.Ok (collect_all future_to_sub completed ∅).

Definition resolve_bulk (self : DNSResolver) (completed : list nat)
    (subdomains : list string) : Py.result (gmap string DNSResult) :=
  resolve_bulk_with (λ sub, Py.Ok (resolve_single self sub).2)
    (max_workers self) completed subdomains.

End DnsResolver.

(** ** modules/geo_intel.py *)

Module GeoIntel.

Record GeoData : Type := mkGeoData {
  ip : string;
  country : option string;
  country_code : option string;
  region : option string;
  city : option string;
  lat : option Q;
  lon : option Q;
  isp : option string;
  org : option string;
  as_number : option string;
  success : bool
}.

(** [GeoData(ip=ip, success=False)] *)
Definition failed (ip : string) : GeoData :=
  mkGeoData ip None None None None None None None None None false.

Definition BATCH_API : string := "http://ip-api.com/batch".
Definition BATCH_SIZE : nat := 100.
Definition RATE_LIMIT_DELAY : Q := 1.5.

(** An object of the provider's JSON array, by the keys that are read;
    the values are strings (numbers for lat and lon) where present. *)
Record geo_item : Type := mkItem {
  i_query : option string;
  i_status : option string;
  i_country : option string;
  i_countryCode : option string;
  i_regionName : option string;
  i_city : option string;
  i_lat : option Q;
  i_lon : option Q;
  i_isp : option string;
  i_org : option string;
  i_as : option string
}.

Inductive json_item : Type :=
  | Item (item : geo_item)
  | NotAnItem.                      (* no [.get], or a query that cannot be a key *)

Inductive batch_response : Type :=
  | BatchFailed                     (* post, raise_for_status, json or the iteration raise *)
  | BatchJson (data : list json_item).

(** [ip = item.get('query', '')] *)
Definition query_of (item : geo_item) : string := default "" (i_query item).

(** The record made of an item. *)
Definition of_item (item : geo_item) : GeoData :=
  let ip := query_of item in
  if decide (i_status item = Some "success") then
    mkGeoData ip (i_country item) (i_countryCode item)
      (i_regionName item) (i_city item) (i_lat item) (i_lon item)
      (i_isp item) (i_org item) (i_as item) true
  else failed ip.

(** The body of [for item in data]. *)
Definition item_body (item : json_item) (results : gmap string GeoData)
    : gmap string GeoData * option Py.exn :=
  match item with
  | NotAnItem => (results, Some Py.AttributeError)
  | Item item => (<[query_of item := of_item item]> results, None)
  end.

(** The handler of [except Exception]: mark the batch. *)
Definition mark_failed (batch : list string) (results : gmap string GeoData)
    : gmap string GeoData :=
  foldl (λ results ip,
           match results !! ip with
           | Some _ => results
           | None => <[ip := failed ip]> results
           end) results batch.

(** [batches = [unique_ips[i:i+BATCH_SIZE] for i in range(0, len(unique_ips), BATCH_SIZE)]] *)
Definition range_step (len step : nat) : list nat :=
  map (λ k, k * step) (seq 0 ((len + step - 1) / step)).

Definition make_batches (unique_ips : list string) : list (list string) :=
  map (λ i, take BATCH_SIZE (drop i unique_ips))
      (range_step (length unique_ips) BATCH_SIZE).

(** One turn of [for batch_idx, batch in enumerate(batches)]. [provider i]
    is what the request for batch [i] meets. *)
Definition batch_body (provider : nat → batch_response) (n_batches : nat)
    (st : Py.trace * gmap string GeoData) (ib : nat * list string)
    : Py.trace * gmap string GeoData :=
  let '(t, results) := st in
  let '(batch_idx, batch) := ib in
  let t := t ++ [Py.HttpPost BATCH_API batch] in
  match provider batch_idx with
  | BatchFailed => (t, mark_failed batch results)
  | BatchJson data =>
      match Py.for_each item_body data results with
      | (results, None) =>
          if decide (batch_idx < n_batches - 1)
          then (t ++ [Py.Sleep RATE_LIMIT_DELAY], results)
          else (t, results)
      | (results, Some _) => (t, mark_failed batch results)
      end
  end.

(** [set_order] is the order in which the runtime iterates over a set:
    [unique_ips = list(set(ips))]. *)
Definition locate_batch (set_order : gset string → list string)
    (provider : nat → batch_response) (ips : list string)
    : Py.trace * gmap string GeoData :=
  let unique_ips := set_order (list_to_set ips) in
  let batches := make_batches unique_ips in
  foldl (batch_body provider (length batches)) ([], ∅) (imap pair batches).

End GeoIntel.


(** ** modules/map_generator.py *)

Module MapGenerator.
Import PyStr.

(** [any(f in text for f in fragments)] *)
Definition any_in (fragments : list string) (text : string) : bool :=
  existsb (λ f, contains f text) fragments.

(** [x or ''] *)
Definition or_empty (x : option string) : string := default "" x.

Definition get_marker_color (org isp : option string) : string :=
  let org_lower := lower (or_empty org) +:+ lower (or_empty isp) in
  if any_in ["amazon"; "aws"; "ec2"; "amazonaws"] org_lower then "green"
  else if any_in ["google"; "gcp"; "cloud platform"] org_lower then "green"
  else if any_in ["microsoft"; "azure"] org_lower then "green"
  else if any_in ["cloudflare"; "akamai"; "fastly"; "cdn"; "edgecast"; "incapsula"]
            org_lower then "orange"
  else if any_in ["digitalocean"; "linode"; "vultr"; "ovh"; "hetzner"; "contabo"]
            org_lower then "blue"
  else if any_in ["vivo"; "claro"; "tim"; "oi "; "net virtua"; "gvt"] org_lower
  then "red"
  else if any_in ["comcast"; "verizon"; "at&t"; "spectrum"; "cox"] org_lower
  then "red"
  else "red".

(** The legend of the map: the priority each marker colour stands for. *)
Inductive tier : Type := Safe | Low | Medium | High.

Definition legend (color : string) : option tier :=
  if String.eqb color "green" then Some Safe
  else if String.eqb color "orange" then Some Low
  else if String.eqb color "blue" then Some Medium
  else if String.eqb color "red" then Some High
  else None.

End MapGenerator.

(** ** overseer.py *)

Module Overseer.
Import PyStr.

Record Args : Type := mkArgs {
  target : string;
  output : string;
  csv : option string;
  threads : Z;
  timeout : Q;
  theme : string;
  no_map : bool
}.

(** A row of the data frame. *)
Record record : Type := mkRecord {
  r_subdomain : string;
  r_ip : string;
  r_cname : option string;
  r_country : option string;
  r_country_code : option string;
  r_region : option string;
  r_city : option string;
  r_lat : option Q;
  r_lon : option Q;
  r_isp : option string;
  r_org : option string;
  r_as_number : option string;
  r_geo_success : bool
}.

(** Everything outside the program that a run meets. *)
Record world : Type := World {
  providers : CtEnum.sources;
  nameservers : DnsResolver.dns;
  geo_provider : nat → GeoIntel.batch_response
}.

(** What the runtime decides: the iteration order of a set, and the
    order in which the futures of a pool complete (by position). *)
Record runtime : Type := Runtime {
  set_order : gset string → list string;
  as_completed : list string → list nat
}.

(** What [run_reconnaissance] does, in order: the phase banners it prints
    and the collaborators it calls. *)
Inductive step : Type :=
  | Phase (n : nat)
  | CallEnumerate (domain : string)
  | CallResolveBulk (subdomain_list : list string)
  | CallLocateBatch (unique_ips : list string)
  | BuildRecords (n : nat)
  | CallPrintSummary
  | CallGenerate (map_points : nat) (output_path : string)
  | CallToCsv (path : string).

(** [sorted] on strings: the order of the code points. *)
Definition str_le (a b : string) : Prop := Is_true (String.leb a b).

#[global] Instance str_le_dec : RelDecision str_le :=
  λ a b, Is_true_dec (String.leb a b).

Definition sorted (l : list string) : list string := merge_sort str_le l.

(** [result.is_alive and result.ip] *)
Definition alive_with_ip (kv : string * DnsResolver.DNSResult) : Prop :=
  DnsResolver.is_alive kv.2 = true
  ∧ truthy (default "" (DnsResolver.ip kv.2)) = true.

#[global] Instance alive_with_ip_dec kv : Decision (alive_with_ip kv).
Proof. unfold alive_with_ip. apply _. Defined.

(** One turn of the loop that builds [records]. *)
Definition make_record (geo_results : gmap string GeoIntel.GeoData)
    (kv : string * DnsResolver.DNSResult) : record :=
  let '(subdomain, dns_result) := kv in
  let ip := default "" (DnsResolver.ip dns_result) in
  let geo := default (GeoIntel.failed ip) (geo_results !! ip) in
  mkRecord subdomain ip (DnsResolver.cname dns_result)
    (GeoIntel.country geo) (GeoIntel.country_code geo) (GeoIntel.region geo)
    (GeoIntel.city geo) (GeoIntel.lat geo) (GeoIntel.lon geo)
    (GeoIntel.isp geo) (GeoIntel.org geo) (GeoIntel.as_number geo)
    (GeoIntel.success geo).

(** [pd.notna(row['lat']) and pd.notna(row['lon'])] *)
Definition has_coordinates (r : record) : bool :=
  match r_lat r, r_lon r with
  | Some _, Some _ => true
  | _, _ => false
  end.

(** Phase 5: summary, map and CSV. *)
Definition tactical_output (args : Args) (df : list record) : list step :=
  [Phase 5; CallPrintSummary]
  ++ (if no_map args then []
      else let map_points := filter (λ r, has_coordinates r = true) df in
           match map_points with
           | [] => []
           | _ => [CallGenerate (length map_points) (output args)]
           end)
  ++ (match csv args with
      | Some path => if truthy path then [CallToCsv path] else []
      | None => []
      end).

(** [target = args.target.lower().strip()] *)
Definition target_of (args : Args) : string := strip (lower (target args)).

(** [subdomains.add(target)]; [subdomain_list = sorted(list(subdomains))] *)
Definition subdomain_list_of (target : string) (subdomains : gset string)
    : list string :=
  sorted (elements (subdomains ∪ {[ target ]})).

(** Phase 2: the resolver is built from the arguments and resolves the
    list in bulk. *)
Definition dns_phase (rt : runtime) (w : world) (args : Args)
    (subdomain_list : list string)
    : Py.result (gmap string DnsResolver.DNSResult) :=
  let dns_resolver :=
    DnsResolver.mkDNSResolver (timeout args) (threads args) (nameservers w) in
  DnsResolver.resolve_bulk dns_resolver
    (as_completed rt subdomain_list) subdomain_list.

Definition run_reconnaissance (rt : runtime) (w : world) (args : Args)
    : list step * Py.result (option (list record)) :=
  let target := target_of args in
  let s1 := [Phase 1; CallEnumerate target] in
  match (CtEnum.enumerate (providers w) target).2 with
  | Py.Raise e => (s1, Py.Raise e)
  | Py.Ok subdomains =>
      if decide (subdomains = ∅) then (s1, Py.Ok None)
      else
        let subdomain_list := subdomain_list_of target subdomains in
        let s2 := s1 ++ [Phase 2; CallResolveBulk subdomain_list] in
        match dns_phase rt w args subdomain_list with
        | Py.Raise e => (s2, Py.Raise e)
        | Py.Ok dns_results =>
            let alive_hosts := filter alive_with_ip dns_results in
            if decide (alive_hosts = ∅) then (s2, Py.Ok None)
            else
              let unique_ips :=
                set_order rt
                  (list_to_set (omap (λ kv, DnsResolver.ip kv.2)
                                     (map_to_list alive_hosts))) in
              let geo_results :=
                (GeoIntel.locate_batch (set_order rt) (geo_provider w) unique_ips).2 in
              let records := map (make_record geo_results) (map_to_list alive_hosts) in
              let df := records in
              (s2 ++ [Phase 3; CallLocateBatch unique_ips;
                      Phase 4; BuildRecords (length records)]
                  ++ tactical_output args df,
               Py.Ok (Some df))
        end
  end.

(** How a call of [run_reconnaissance] ends, as [main] sees it. *)
Inductive run_end : Type :=
  | Returned (df : option (list record))
  | Raised (e : Py.exn)
  | Interrupted.                    (* KeyboardInterrupt *)

Definition run_end_of (r : Py.result (option (list record))) : run_end :=
  match r with
  | Py.Ok df => Returned df
  | Py.Raise e => Raised e
  end.

Inductive panel : Type :=
  | ReconnaissanceComplete
  | ReconnaissanceIncomplete        (* "Insufficient data collected" *)
  | OperationCancelled
  | FatalError (e : Py.exn).

Inductive ending : Type :=
  | Return
  | SystemExit (code : Z)
  | Propagate (e : Py.exn).

Definition main (run : run_end) : list panel * ending :=
  match run with
  | Returned (Some _) => ([ReconnaissanceComplete], Return)
  | Returned None => ([ReconnaissanceIncomplete], SystemExit 1)
  | Interrupted => ([OperationCancelled], SystemExit 130)
  | Raised e => ([FatalError e], Propagate e)
  end.

End Overseer.

(** ** The words of the specification *)

Module Spec.
Import PyStr.

(** [s] ends with [d]. *)
Definition ends_with (s d : string) : Prop := ∃ p, s = p +:+ d.

(** [f] occurs in [s]. *)
Definition occurs_in (f s : string) : Prop := ∃ pre post, s = pre +:+ f +:+ post.

Fixpoint chars (s : string) : list ascii :=
  match s with
  | EmptyString => []
  | String c s' => c :: chars s'
  end.

(** The language of [[a-z0-9][a-z0-9\-.]*[a-z0-9]]: a first and a last
    character of [[a-z0-9]], and only [[a-z0-9\-.]] between them. *)
Definition in_pattern (s : string) : Prop :=
  ∃ first inner last,
    s = String first (inner +:+ String last EmptyString)
    ∧ CtEnum.is_alnum first = true
    ∧ (∀ c, c ∈ chars inner → CtEnum.is_inner c = true)
    ∧ CtEnum.is_alnum last = true.

(** Whitespace trimming, lower-casing and wildcard stripping. *)
Definition normalize (name : string) : string :=
  let name := lower (strip name) in
  if startswith name "*" then replace "*." "" name else name.

(** A name strictly beneath [domain]: labels, a dot, the domain. *)
Definition proper_subdomain (name domain : string) : Prop :=
  ∃ labels, labels ≠ EmptyString ∧ name = labels +:+ "." +:+ domain.

(** The fragment lists of the classification, by category. *)
Definition cloud_fragments : list string :=
  ["amazon"; "aws"; "ec2"; "amazonaws"; "google"; "gcp"; "cloud platform";
   "microsoft"; "azure"].
Definition cdn_fragments : list string :=
  ["cloudflare"; "akamai"; "fastly"; "cdn"; "edgecast"; "incapsula"].
Definition vps_fragments : list string :=
  ["digitalocean"; "linode"; "vultr"; "ovh"; "hetzner"; "contabo"].

(** Case-insensitive substring matching of a category against the
    concatenation of the organization and ISP text. *)
Definition mentions (fragments : list string) (org isp : string) : Prop :=
  ∃ f, f ∈ fragments ∧ occurs_in f (lower (org +:+ isp)).

(** [classify(organization, isp)] *)
Definition classify (org isp : string) : option MapGenerator.tier :=
  MapGenerator.legend (MapGenerator.get_marker_color (Some org) (Some isp)).

(** The queries of a trace for one record type. *)
Definition queries_of (rdtype : string) (t : Py.trace) : list string :=
  omap (λ e, match e with
             | Py.DnsQuery qname ty =>
                 if String.eqb ty rdtype then Some qname else None
             | _ => None
             end) t.

(** A name that [_clean_subdomain] returns for some raw entry. *)
Definition accepted (domain n : string) : Prop :=
  ∃ raw, CtEnum._clean_subdomain raw domain = Some n.

Definition all_accepted (domain : string) (s : gset string) : Prop :=
  ∀ n, n ∈ s → accepted domain n.

(** The pauses of a trace, request by request: for each GET, the sleeps
    that follow it before the next event of another kind. *)
Fixpoint leading_sleeps (t : Py.trace) : list Q :=
  match t with
  | Py.Sleep q :: t' => q :: leading_sleeps t'
  | _ => []
  end.

Fixpoint rounds (t : Py.trace) : list (list Q) :=
  match t with
  | [] => []
  | Py.HttpGet _ :: t' => leading_sleeps t' :: rounds t'
  | _ :: t' => rounds t'
  end.

(** The answers after which crt.sh is asked again: a timeout, and the
    status 503. *)
Definition retried (r : CtEnum.crt_response) : bool :=
  match r with
  | CtEnum.GetTimeout => true
  | CtEnum.GetError => false
  | CtEnum.Response status_code _ => (status_code =? 503)%Z
  end.

(** The hard errors: a failed request, any other 4xx or 5xx status, and
    a payload that is not JSON. *)
Definition hard (r : CtEnum.crt_response) : bool :=
  match r with
  | CtEnum.GetTimeout => false
  | CtEnum.GetError => true
  | CtEnum.Response status_code body =>
      negb (status_code =? 503)%Z
      && (CtEnum.raise_for_status status_code
          || match body with CtEnum.InvalidJson => true | _ => false end)
  end.

(** "Temporarily unavailable" as the specification words it: a timeout,
    or any 5xx status. *)
Definition unavailable_as_stated (r : CtEnum.crt_response) : Prop :=
  r = CtEnum.GetTimeout
  ∨ ∃ status_code body,
      r = CtEnum.Response status_code body ∧ (500 ≤ status_code < 600)%Z.

(** The retry policy as the specification words it: while attempts
    remain, every answer that is temporarily unavailable is followed by
    a pause of base times the number of the attempt. *)
Definition retry_policy_as_stated (crtsh : nat → CtEnum.crt_response)
    (domain : string) : Prop :=
  ∀ k, k + 1 < CtEnum.MAX_RETRIES →
    (∀ j, j ≤ k → unavailable_as_stated (crtsh j)) →
    rounds (CtEnum._query_crtsh crtsh domain).1 !! k
    = Some [inject_Z (CtEnum.RETRY_DELAY * (Z.of_nat k + 1))].

(** The record that [resolve_bulk] keeps for a future. *)
Definition kept (subdomain : string) (outcome : Py.result DnsResolver.DNSResult)
    : DnsResolver.DNSResult :=
  match outcome with
  | Py.Ok result => result
  | Py.Raise e =>
      DnsResolver.mkDNSResult subdomain None false None (Some (Py.exn_str e))
  end.

(** What one turn of the loop of [locate_batch] does to [results]. *)
Definition batch_results (provider : nat → GeoIntel.batch_response)
    (results : gmap string GeoIntel.GeoData) (ib : nat * list string)
    : gmap string GeoIntel.GeoData :=
  match provider ib.1 with
  | GeoIntel.BatchFailed => GeoIntel.mark_failed ib.2 results
  | GeoIntel.BatchJson data =>
      match Py.for_each GeoIntel.item_body data results with
      | (results, None) => results
      | (results, Some _) => GeoIntel.mark_failed ib.2 results
      end
  end.

(** The answer to a batch is usable: the request fails as a whole, or the
    provider answers with objects only, one for each address of the batch,
    which it repeats under [query]. *)
Definition answers_batch (r : GeoIntel.batch_response) (batch : list string)
    : Prop :=
  r = GeoIntel.BatchFailed
  ∨ ∃ items, r = GeoIntel.BatchJson (map GeoIntel.Item items)
             ∧ map GeoIntel.query_of items ≡ₚ batch.

(** The request of a batch is answered and all of its answer is read. *)
Definition answered (r : GeoIntel.batch_response) : bool :=
  match r with
  | GeoIntel.BatchFailed => false
  | GeoIntel.BatchJson data =>
      forallb (λ it, match it with
                     | GeoIntel.Item _ => true
                     | GeoIntel.NotAnItem => false
                     end) data
  end.

(** The requests and pauses of [locate_batch], batch by batch, for the
    batches numbered from [first] on, of [n_batches] in all. *)
Fixpoint batch_events (provider : nat → GeoIntel.batch_response)
    (n_batches first : nat) (batches : list (list string)) : Py.trace :=
  match batches with
  | [] => []
  | batch :: batches' =>
      Py.HttpPost GeoIntel.BATCH_API batch
      :: (if answered (provider first) && bool_decide (first < n_batches - 1)
          then [Py.Sleep GeoIntel.RATE_LIMIT_DELAY] else [])
      ++ batch_events provider n_batches (S first) batches'
  end.

(** A step of the run that belongs to enumeration or resolution. *)
Definition before_geolocation (st : Overseer.step) : Prop :=
  match st with
  | Overseer.Phase n => n ≤ 2
  | Overseer.CallEnumerate _ | Overseer.CallResolveBulk _ => True
  | _ => False
  end.

(** The run has too little to go on: the enumeration is empty, or the
    resolution that the run performs finds no name alive. *)
Definition insufficient (rt : Overseer.runtime) (w : Overseer.world)
    (args : Overseer.Args) : Prop :=
  (CtEnum.enumerate (Overseer.providers w) (Overseer.target_of args)).2
  = Py.Ok ∅
  ∨ ∃ subdomains dns_results,
      (CtEnum.enumerate (Overseer.providers w) (Overseer.target_of args)).2
      = Py.Ok subdomains
      ∧ Overseer.dns_phase rt w args
          (Overseer.subdomain_list_of (Overseer.target_of args) subdomains)
        = Py.Ok dns_results
      ∧ ∀ sub r, dns_results !! sub = Some r → DnsResolver.is_alive r = false.

(** The run resolves its target as alive: the enumeration is not empty,
    and in the records that the resolver returns the target is alive. *)
Definition target_alive (rt : Overseer.runtime) (w : Overseer.world)
    (args : Overseer.Args) : Prop :=
  ∃ subdomains dns_results r,
    (CtEnum.enumerate (Overseer.providers w) (Overseer.target_of args)).2
    = Py.Ok subdomains
    ∧ subdomains ≠ ∅
    ∧ Overseer.dns_phase rt w args
        (Overseer.subdomain_list_of (Overseer.target_of args) subdomains)
      = Py.Ok dns_results
    ∧ dns_results !! Overseer.target_of args = Some r
    ∧ DnsResolver.is_alive r = true.

(** A line feed, as a string. *)
Definition LF : string := String newline EmptyString.

End Spec.

(** ** Concrete runs *)

Module Scenarios.
Import PyStr.

(** A wildcard entry that carries a line feed: ["*.a.b\n*."]. *)
Definition wildcard_line_feed : string := "*.a.b" +:+ Spec.LF +:+ "*.".

(** crt.sh answers at once, with one name that only shares its last
    characters with the target; the other providers fail. *)
Definition lookalike : CtEnum.sources :=
  CtEnum.Sources
    (λ _, CtEnum.Response 200 (CtEnum.JsonArray [CtEnum.NameValue "notexample.com"]))
    CtEnum.CsFailed CtEnum.HtFailed.

(** crt.sh answers the first request with the status 500 and would
    answer the next with one name. *)
Definition server_error : nat → CtEnum.crt_response :=
  λ attempt,
    match attempt with
    | O => CtEnum.Response 500 CtEnum.BlankText
    | _ => CtEnum.Response 200
             (CtEnum.JsonArray [CtEnum.NameValue "www.example.com"])
    end.

(** No name resolves: every lookup ends in NXDOMAIN. *)
Definition dead_dns : DnsResolver.dns :=
  DnsResolver.Dns (λ _, DnsResolver.NXDOMAIN) (λ _, DnsResolver.NXDOMAIN).

(** A callable whose call raises for one name. *)
Definition raising_worker (sub : string) : Py.result DnsResolver.DNSResult :=
  if String.eqb sub "b.example.com"
  then Py.Raise (Py.Exception "RuntimeError" "boom")
  else Py.Ok (DnsResolver.resolve_single
                (DnsResolver.mkDNSResolver 3 50 dead_dns) sub).2.

(** 150 distinct addresses. *)
Definition addresses150 : list string :=
  map (λ n, "10.0.0." +:+ DnsResolver.dec (N.of_nat n)) (seq 0 150).

(** The provider's object for an address it locates. *)
Definition located (ip : string) : GeoIntel.geo_item :=
  GeoIntel.mkItem (Some ip) (Some "success") (Some "Iceland") (Some "IS")
    None (Some "Reykjavik") (Some 64.1%Q) (Some (-21.9)%Q) (Some "ISP") (Some "Org")
    None.

(** The first request is answered for each of its addresses, every later
    request fails. *)
Definition second_batch_fails : nat → GeoIntel.batch_response :=
  λ batch_idx,
    match batch_idx with
    | O => GeoIntel.BatchJson
             (map GeoIntel.Item
                (map located
                   (take 100 (elements (list_to_set addresses150 : gset string)))))
    | _ => GeoIntel.BatchFailed
    end.

(** The first request fails, the second is answered. *)
Definition first_batch_fails : nat → GeoIntel.batch_response :=
  λ batch_idx,
    match batch_idx with
    | O => GeoIntel.BatchFailed
    | _ => GeoIntel.BatchJson
             (map GeoIntel.Item
                (map located
                   (drop 100 (elements (list_to_set addresses150 : gset string)))))
    end.

(** The provider answers with an empty array. *)
Definition empty_answer : nat → GeoIntel.batch_response :=
  λ _, GeoIntel.BatchJson [].

(** The futures complete in the order of submission, and a set is
    iterated in the order of [elements]. *)
Definition in_order : Overseer.runtime :=
  Overseer.Runtime elements (λ l, seq 0 (length l)).

(** No provider knows a name. *)
Definition silent : CtEnum.sources :=
  CtEnum.Sources (λ _, CtEnum.Response 200 CtEnum.BlankText)
    CtEnum.CsFailed CtEnum.HtFailed.

(** crt.sh knows two names of the target. *)
Definition two_names : CtEnum.sources :=
  CtEnum.Sources
    (λ _, CtEnum.Response 200
            (CtEnum.JsonArray
               [CtEnum.NameValue "api.example.com";
                CtEnum.NameValue "*.example.com";
                CtEnum.NameValue "old.example.com"]))
    CtEnum.CsFailed CtEnum.HtFailed.

(** The target and [api.example.com] have an address, nothing else has. *)
Definition live_dns : DnsResolver.dns :=
  DnsResolver.Dns
    (λ name, if String.eqb name "example.com"
             then DnsResolver.Answer (DnsResolver.IPv4 203 0 113 7) []
             else if String.eqb name "api.example.com"
             then DnsResolver.Answer (DnsResolver.IPv4 203 0 113 5) []
             else DnsResolver.NXDOMAIN)
    (λ _, DnsResolver.NoAnswer).

Definition args_example : Overseer.Args :=
  Overseer.mkArgs " Example.COM " "attack_surface.html" None 50 3 "dark" false.

Definition world_silent : Overseer.world :=
  Overseer.World silent live_dns empty_answer.
Definition world_dead : Overseer.world :=
  Overseer.World two_names dead_dns empty_answer.
Definition world_live : Overseer.world :=
  Overseer.World two_names live_dns empty_answer.

End Scenarios.

(** ** The single-address path of modules/geo_intel.py *)

Module GeoSingle.
Import GeoIntel.

Definition SINGLE_API (ip : string) : string := "http://ip-api.com/json/" +:+ ip.

Inductive single_response : Type :=
  | SingleFailed                    (* get, raise_for_status, json or [data.get] raise *)
  | SingleJson (data : geo_item).

Definition locate_single (provider : single_response) (ip : string)
    : Py.trace * GeoData :=
  ([Py.HttpGet (SINGLE_API ip)],
   match provider with
   | SingleFailed => failed ip
   | SingleJson data =>
       if decide (i_status data = Some "success") then
         mkGeoData ip (i_country data) (i_countryCode data)
           (i_regionName data) (i_city data) (i_lat data) (i_lon data)
           (i_isp data) (i_org data) (i_as data) true
       else failed ip
   end).

End GeoSingle.

(** ** Observations on traces and further concrete runs *)

Module More.
Import PyStr.

(** The payloads of the POST requests of a trace, in order. *)
Definition posts (t : Py.trace) : list (list string) :=
  omap (λ e, match e with Py.HttpPost _ payload => Some payload | _ => None end) t.

(** The pauses of a trace, in order. *)
Definition sleeps (t : Py.trace) : list Q :=
  omap (λ e, match e with Py.Sleep q => Some q | _ => None end) t.

(** A CertSpotter issuance whose names are all strings. *)
Definition issuance (names : list string) : CtEnum.cs_entry :=
  CtEnum.DnsNames (map CtEnum.DnsName names).

(** No character of [s] is [c]. *)
Definition free_of (c : ascii) (s : string) : Prop := c ∉ Spec.chars s.

(** crt.sh answers with an array that holds something that is not an
    object after a good entry. *)
Definition malformed_crtsh : CtEnum.sources :=
  CtEnum.Sources
    (λ _, CtEnum.Response 200
            (CtEnum.JsonArray [CtEnum.NameValue "www.example.com"; CtEnum.NotAnEntry]))
    (CtEnum.CsJson [issuance ["api.example.com"]])
    (CtEnum.HtText "api.example.com,203.0.113.5").

(** The geolocation provider is down. *)
Definition geo_down : nat → GeoIntel.batch_response := λ _, GeoIntel.BatchFailed.

Definition world_geo_down : Overseer.world :=
  Overseer.World Scenarios.two_names Scenarios.live_dns geo_down.

(** The geolocation provider locates the two addresses of [live_dns]. *)
Definition geo_up : nat → GeoIntel.batch_response :=
  λ _, GeoIntel.BatchJson
         (map GeoIntel.Item
            (map Scenarios.located ["203.0.113.5"; "203.0.113.7"])).

Definition world_geo_up : Overseer.world :=
  Overseer.World Scenarios.two_names Scenarios.live_dns geo_up.

(** The arguments of a run with [--threads 0]. *)
Definition args_no_threads : Overseer.Args :=
  Overseer.mkArgs "example.com" "attack_surface.html" None 0 3 "dark" false.

End More.

(** * Properties *)

(** ** Strings *)

Section StringFacts.
Import PyStr.

Lemma append_nil_l (b : string) : "" +:+ b = b.
Proof. reflexivity. Qed.

Lemma append_cons (x : ascii) (a b : string) :
  String x a +:+ b = String x (a +:+ b).
Proof. reflexivity. Qed.

Lemma append_assoc (a b c : string) : (a +:+ b) +:+ c = a +:+ (b +:+ c).
Proof.
  induction a as [|x a IH]; [done |].
  by rewrite !append_cons, IH.
Qed.

Lemma append_empty_r (a : string) : a +:+ "" = a.
Proof. induction a as [|x a IH]; [done | by rewrite append_cons, IH]. Qed.

Lemma length_append (a b : string) :
  String.length (a +:+ b) = String.length a + String.length b.
Proof.
  induction a as [|x a IH]; [done |].
  rewrite append_cons. simpl. by rewrite IH.
Qed.

Lemma prefix_spec (p s : string) :
  String.prefix p s = true ↔ ∃ post, s = p +:+ post.
Proof.
  revert s. induction p as [|a p IH]; intros s.
  - split; [intros _; by exists s | by destruct s].
  - destruct s as [|b s]; simpl.
    + split; [done | intros [post H]; discriminate].
    + destruct (Ascii.ascii_dec a b) as [->|Hne].
      * rewrite IH. split; intros [post H]; exists post;
          rewrite ?append_cons in *; congruence.
      * split; [done | intros [post H]; rewrite append_cons in H; congruence].
Qed.

Lemma contains_nil (f : string) :
  contains f "" = String.prefix f "" || false.
Proof. reflexivity. Qed.

Lemma contains_cons (f : string) (c : ascii) (s : string) :
  contains f (String c s) = String.prefix f (String c s) || contains f s.
Proof. reflexivity. Qed.

Lemma contains_spec (f s : string) :
  contains f s = true ↔ Spec.occurs_in f s.
Proof.
  unfold Spec.occurs_in. induction s as [|c s IH].
  - rewrite contains_nil, orb_false_r, prefix_spec. split.
    + intros [post H]. by exists "", post.
    + intros (pre & post & H). destruct pre; [by exists post | discriminate].
  - rewrite contains_cons, orb_true_iff, IH, prefix_spec. split.
    + intros [[post H] | (pre & post & H)].
      * by exists "", post.
      * exists (String c pre), post. by rewrite append_cons, H.
    + intros (pre & post & H). destruct pre as [|x pre].
      * left. by exists post.
      * right. exists pre, post. rewrite append_cons in H. congruence.
Qed.

Lemma endswith_nil (d : string) :
  endswith "" d = String.eqb "" d || false.
Proof. reflexivity. Qed.

Lemma endswith_cons (c : ascii) (s d : string) :
  endswith (String c s) d = String.eqb (String c s) d || endswith s d.
Proof. reflexivity. Qed.

Lemma endswith_spec (s d : string) :
  endswith s d = true ↔ Spec.ends_with s d.
Proof.
  unfold Spec.ends_with. induction s as [|c s IH].
  - rewrite endswith_nil, orb_false_r, String.eqb_eq. split.
    + intros <-. by exists "".
    + intros [p H]. destruct p; [done | discriminate].
  - rewrite endswith_cons, orb_true_iff, IH, String.eqb_eq. split.
    + intros [<- | [p H]]; [by exists "" |].
      exists (String c p). by rewrite append_cons, H.
    + intros [p H]. destruct p as [|x p]; [by left |].
      right. exists p. rewrite append_cons in H. congruence.
Qed.

Lemma lower_append (a b : string) : lower (a +:+ b) = lower a +:+ lower b.
Proof.
  induction a as [|x a IH]; [done |].
  rewrite append_cons. simpl. by rewrite IH.
Qed.

End StringFacts.

(** ** Classification of markers *)

Section Classification.
Import PyStr MapGenerator.

Lemma any_in_spec (fragments : list string) (text : string) :
  any_in fragments text = true
  ↔ ∃ f, f ∈ fragments ∧ Spec.occurs_in f text.
Proof.
  unfold any_in. rewrite existsb_exists. split.
  - intros (f & Hin & Hc). exists f.
    by rewrite list_elem_of_In, <- contains_spec.
  - intros (f & Hin & Hc). exists f.
    by rewrite <- list_elem_of_In, contains_spec.
Qed.

Lemma mentions_any_in (fragments : list string) (org isp : string) :
  Spec.mentions fragments org isp
  ↔ any_in fragments (lower org +:+ lower isp) = true.
Proof. unfold Spec.mentions. by rewrite any_in_spec, lower_append. Qed.

Lemma any_in_app (l1 l2 : list string) (text : string) :
  any_in (l1 ++ l2) text = any_in l1 text || any_in l2 text.
Proof. apply existsb_app. Qed.

(** C2: the marker colour, read through the legend, is one of the four
    tiers and is decided by first match in the order cloud, CDN, VPS,
    everything else, on the lower-cased concatenation of organization and
    ISP; the three examples of the specification evaluate as stated, and
    the tier is a function of the two strings alone. *)
Theorem classify_first_match (org isp : string) :
  (∃ t, Spec.classify org isp = Some t
      ∧ (t = Safe ↔ Spec.mentions Spec.cloud_fragments org isp)
      ∧ (t = Low ↔ ¬ Spec.mentions Spec.cloud_fragments org isp
                   ∧ Spec.mentions Spec.cdn_fragments org isp)
      ∧ (t = Medium ↔ ¬ Spec.mentions Spec.cloud_fragments org isp
                      ∧ ¬ Spec.mentions Spec.cdn_fragments org isp
                      ∧ Spec.mentions Spec.vps_fragments org isp)
      ∧ (t = High ↔ ¬ Spec.mentions Spec.cloud_fragments org isp
                    ∧ ¬ Spec.mentions Spec.cdn_fragments org isp
                    ∧ ¬ Spec.mentions Spec.vps_fragments org isp))
  ∧ Spec.classify "Amazon Web Services" "Comcast Inc" = Some Safe
  ∧ Spec.classify "Cloudflare, Inc." "" = Some Low
  ∧ Spec.classify "Acme Hosting LLC" "" = Some High
  ∧ get_marker_color None None = get_marker_color (Some "") (Some "").
Proof.
  split; [| by repeat split].
  setoid_rewrite mentions_any_in.
  unfold Spec.classify, get_marker_color, or_empty. simpl default.
  set (text := lower org +:+ lower isp).
  change Spec.cloud_fragments with
    (["amazon"; "aws"; "ec2"; "amazonaws"]
       ++ ["google"; "gcp"; "cloud platform"] ++ ["microsoft"; "azure"]).
  rewrite !any_in_app.
  unfold Spec.cdn_fragments, Spec.vps_fragments.
  destruct (any_in ["amazon"; "aws"; "ec2"; "amazonaws"] text);
    [exists Safe; by intuition |].
  destruct (any_in ["google"; "gcp"; "cloud platform"] text);
    [exists Safe; by intuition |].
  destruct (any_in ["microsoft"; "azure"] text);
    [exists Safe; by intuition |].
  destruct (any_in _ text); [exists Low; by intuition |].
  destruct (any_in _ text); [exists Medium; by intuition |].
  exists High.
  destruct (any_in _ text); [by intuition |].
  destruct (any_in _ text); by intuition.
Qed.

End Classification.

(** ** Resolution of one name *)

Section ResolveSingle.
Import DnsResolver.

(** C8: the record of one name is decided by the address lookup alone:
    an answer gives an alive record without error, and each kind of
    failure gives a dead record with its own error; the alias is looked
    up once, after an answered address lookup only, and when that lookup
    fails the alias stays empty and the record is unchanged otherwise. *)
Theorem resolve_single_record (self : DNSResolver) (name : string) :
  let t := (resolve_single self name).1 in
  let r := (resolve_single self name).2 in
  subdomain r = name
  ∧ Spec.queries_of "A" t = [name]
  ∧ match resolve_A (resolver self) name with
    | Answer first _ =>
        is_alive r = true ∧ error r = None ∧ ip r = Some (ipv4_str first)
        ∧ t = [Py.DnsQuery name "A"; Py.DnsQuery name "CNAME"]
        ∧ match resolve_CNAME (resolver self) name with
          | Answer alias _ => cname r = Some alias
          | _ => cname r = None
          end
    | NXDOMAIN =>
        is_alive r = false ∧ error r = Some "NXDOMAIN" ∧ ip r = None
        ∧ cname r = None ∧ Spec.queries_of "CNAME" t = []
    | NoAnswer =>
        is_alive r = false ∧ error r = Some "NoAnswer" ∧ ip r = None
        ∧ cname r = None ∧ Spec.queries_of "CNAME" t = []
    | Timeout =>
        is_alive r = false ∧ error r = Some "Timeout" ∧ ip r = None
        ∧ cname r = None ∧ Spec.queries_of "CNAME" t = []
    | Failure e =>
        is_alive r = false ∧ error r = Some (Py.exn_str e) ∧ ip r = None
        ∧ cname r = None ∧ Spec.queries_of "CNAME" t = []
    end.
Proof.
  unfold resolve_single.
  destruct (resolve_A (resolver self) name) as [first others| | | |e]; simpl;
    try (repeat split; done).
  repeat split; try done.
  by destruct (resolve_CNAME (resolver self) name).
Qed.

End ResolveSingle.

(** ** Normalization of candidate names *)

Section CleanSubdomain.
Import PyStr CtEnum.

Lemma at_dollar_spec (s : string) :
  at_dollar s = true ↔ s = "" ∨ s = Spec.LF.
Proof.
  unfold Spec.LF. destruct s as [|c [|c' s]]; simpl.
  - split; [by left | done].
  - rewrite Ascii.eqb_eq. split; [intros ->; by right |].
    intros [H | H]; [discriminate | congruence].
  - split; [done | intros [H | H]; discriminate].
Qed.

(** What [[a-z0-9\-\.]*[a-z0-9]$] accepts. *)
Lemma match_rest_spec (s : string) :
  match_rest s = true
  ↔ ∃ inner last,
      (s = inner +:+ String last "" ∨ s = inner +:+ String last Spec.LF)
      ∧ (∀ c, c ∈ Spec.chars inner → is_inner c = true)
      ∧ is_alnum last = true.
Proof.
  induction s as [|c s IH]; simpl.
  - split; [done |].
    intros (inner & last & [H | H] & _); by destruct inner.
  - rewrite orb_true_iff, !andb_true_iff, at_dollar_spec, IH. split.
    + intros [[Hc [-> | ->]] | [Hc (inner & last & Hs & Hin & Hl)]].
      * exists "", c. split; [by left |]. split; [|done].
        intros x Hx. by apply elem_of_nil in Hx.
      * exists "", c. split; [by right |]. split; [|done].
        intros x Hx. by apply elem_of_nil in Hx.
      * exists (String c inner), last. rewrite !append_cons.
        split; [destruct Hs as [-> | ->]; [by left | by right] |].
        split; [|done]. intros x Hx. simpl in Hx.
        apply elem_of_cons in Hx as [-> | Hx]; [done | by apply Hin].
    + intros (inner & last & Hs & Hin & Hl).
      destruct inner as [|x inner].
      * left. rewrite !append_nil_l in Hs.
        destruct Hs as [Hs | Hs]; injection Hs as -> ->; by auto.
      * right. rewrite !append_cons in Hs. split.
        { apply Hin. simpl. destruct Hs as [Hs | Hs];
            injection Hs as -> _; apply list_elem_of_here. }
        exists inner, last. split.
        { destruct Hs as [Hs | Hs]; injection Hs as _ ->; [by left | by right]. }
        split; [|done]. intros y Hy. apply Hin. simpl.
        by apply list_elem_of_further.
Qed.

(** The anchored expression accepts the names of the pattern, and those
    names followed by one line feed. *)
Lemma re_match_name_spec (s : string) :
  re_match_name s = true
  ↔ Spec.in_pattern s ∨ ∃ s0, s = s0 +:+ Spec.LF ∧ Spec.in_pattern s0.
Proof.
  unfold Spec.in_pattern. destruct s as [|c s]; simpl.
  - split; [done |].
    intros [(f & i & l & H & _) | (s0 & H & f & i & l & -> & _)];
      discriminate.
  - rewrite andb_true_iff, match_rest_spec. split.
    + intros [Hc (inner & last & [-> | ->] & Hin & Hl)].
      * left. by exists c, inner, last.
      * right. exists (String c (inner +:+ String last "")).
        split; [| by exists c, inner, last].
        by rewrite append_cons, append_assoc, append_cons.
    + intros [(f & i & l & H & Hf & Hi & Hl)
             | (s0 & H & f & i & l & -> & Hf & Hi & Hl)].
      * injection H as -> ->. split; [done |]. exists i, l. by auto.
      * rewrite append_cons, append_assoc, append_cons in H.
        injection H as -> ->. split; [done |]. exists i, l. by auto.
Qed.

Lemma is_inner_not_newline (c : ascii) : is_inner c = true → c ≠ newline.
Proof. intros H ->. discriminate. Qed.

Lemma append_last_inj (a b : string) (x y : ascii) :
  a +:+ String x "" = b +:+ String y "" → a = b ∧ x = y.
Proof.
  revert b. induction a as [|c a IH]; intros [|d b] H;
    rewrite ?append_cons, ?append_nil_l in H.
  - by injection H as ->.
  - injection H as -> H. by destruct b.
  - injection H as -> H. by destruct a.
  - injection H as -> H. apply IH in H as [-> ->]. done.
Qed.

(** A name of the pattern does not end with a line feed. *)
Lemma in_pattern_no_newline (s : string) :
  Spec.in_pattern s → ¬ Spec.ends_with s Spec.LF.
Proof.
  intros (f & i & l & -> & Hf & Hi & Hl) [p H].
  assert (String f (i +:+ String l "") = String f i +:+ String l "") as E
    by by rewrite append_cons.
  rewrite E in H. unfold Spec.LF in H.
  apply append_last_inj in H as [_ ->]. discriminate.
Qed.

(** What [_clean_subdomain] accepts, for all names and domains. *)
Lemma clean_subdomain_accepts (name domain r : string) :
  _clean_subdomain name domain = Some r
  ↔ r = Spec.normalize name
    ∧ Spec.ends_with r domain
    ∧ r ≠ domain
    ∧ (Spec.in_pattern r ∨ ∃ r0, r = r0 +:+ Spec.LF ∧ Spec.in_pattern r0).
Proof.
  unfold _clean_subdomain. fold (Spec.normalize name).
  set (n := Spec.normalize name).
  rewrite <- re_match_name_spec, <- endswith_spec.
  destruct (endswith n domain) eqn:He; simpl.
  2: { split; [done | intros (-> & H & _); congruence]. }
  destruct (String.eqb_spec n domain) as [Heq | Hne].
  { split; [done | intros (-> & _ & H & _); done]. }
  destruct (re_match_name n) eqn:Hm; simpl.
  - split; [intros [= <-]; by rewrite He, Hm | by intros (-> & _)].
  - split; [done | intros (-> & _ & _ & H); congruence].
Qed.

(** Away from a trailing line feed, the acceptance test is the one of
    the specification. *)
Lemma clean_subdomain_spec (name domain r : string) :
  ¬ Spec.ends_with (Spec.normalize name) Spec.LF →
  _clean_subdomain name domain = Some r
  ↔ r = Spec.normalize name
    ∧ Spec.ends_with r domain ∧ r ≠ domain ∧ Spec.in_pattern r.
Proof.
  intros Hnl. rewrite clean_subdomain_accepts. split.
  - intros (-> & He & Hne & [Hp | (r0 & Hr & _)]); [done |].
    destruct Hnl. by exists r0.
  - intros (-> & He & Hne & Hp). by auto.
Qed.

End CleanSubdomain.

Section CleanSubdomainCases.
Import PyStr CtEnum.

(** The three examples of the specification for the target
    [example.com]. *)
Lemma clean_subdomain_examples :
  Spec.normalize "*.example.com" = "example.com"
  ∧ _clean_subdomain "*.example.com" "example.com" = None
  ∧ _clean_subdomain "WWW.Example.com" "example.com" = Some "www.example.com"
  ∧ _clean_subdomain "notexample.org" "example.com" = None.
Proof. by repeat split. Qed.


(** A name of equal length cannot be a dot-separated extension. *)
Lemma lookalike_not_beneath :
  ¬ Spec.proper_subdomain "notexample.com" "example.com".
Proof.
  intros (labels & _ & H).
  destruct labels as [|a [|b [|c labels]]]; try discriminate.
  rewrite !append_cons in H. injection H as _ _ _ H.
  apply (f_equal String.length) in H. rewrite length_append in H.
  simpl in H. lia.
Qed.

End CleanSubdomainCases.

(** ** The enumerator *)

Section Enumerate.
Import PyStr CtEnum.

Lemma all_accepted_empty domain : Spec.all_accepted domain ∅.
Proof. intros n Hn. set_solver. Qed.

Lemma all_accepted_union domain (s1 s2 : gset string) :
  Spec.all_accepted domain s1 → Spec.all_accepted domain s2 →
  Spec.all_accepted domain (s1 ∪ s2).
Proof. intros H1 H2 n [Hn | Hn]%elem_of_union; [by apply H1 | by apply H2]. Qed.

Lemma add_clean_accepted domain name s :
  Spec.all_accepted domain s → Spec.all_accepted domain (add_clean domain name s).
Proof.
  intros Hs. unfold add_clean.
  destruct (_clean_subdomain name domain) as [clean|] eqn:Hc; [|done].
  destruct (truthy clean); [|done].
  apply all_accepted_union; [done |].
  intros n ->%elem_of_singleton. by exists name.
Qed.

Lemma add_names_accepted domain names s :
  Spec.all_accepted domain s → Spec.all_accepted domain (add_names domain names s).
Proof.
  unfold add_names. revert s.
  induction names as [|name names IH]; intros s Hs; simpl; [done |].
  by apply IH, add_clean_accepted.
Qed.

Lemma for_each_accepted {X} domain
    (body : X → gset string → gset string * option Py.exn) xs s :
  (∀ x s, Spec.all_accepted domain s → Spec.all_accepted domain (body x s).1) →
  Spec.all_accepted domain s →
  Spec.all_accepted domain (Py.for_each body xs s).1.
Proof.
  intros Hbody. revert s.
  induction xs as [|x xs IH]; intros s Hs; simpl; [done |].
  specialize (Hbody x s Hs).
  destruct (body x s) as [s' [e|]]; simpl in *; [done | by apply IH].
Qed.

Lemma crt_entry_body_accepted domain entry s :
  Spec.all_accepted domain s → Spec.all_accepted domain (crt_entry_body domain entry s).1.
Proof.
  intros Hs. destruct entry; unfold crt_entry_body; cbn [fst]; [| |done];
    by apply add_names_accepted.
Qed.

Lemma crtsh_attempts_accepted crtsh domain remaining attempt s :
  (crtsh_attempts crtsh domain remaining attempt).2 = Py.Ok s →
  Spec.all_accepted domain s.
Proof.
  revert attempt s.
  induction remaining as [|remaining IH]; intros attempt s; simpl.
  { intros [= <-]. apply all_accepted_empty. }
  specialize (IH (S attempt) s).
  destruct (crtsh_attempts crtsh domain remaining (S attempt)) as [t r].
  destruct (crtsh attempt) as [| |status_code body]; simpl.
  - done.
  - intros [= <-]. apply all_accepted_empty.
  - destruct (status_code =? 503)%Z; [done |].
    destruct (raise_for_status status_code); simpl.
    { intros [= <-]. apply all_accepted_empty. }
    destruct body as [| |data|]; simpl;
      try (intros [= <-]; apply all_accepted_empty).
    pose proof (for_each_accepted domain (crt_entry_body domain) data ∅
                  (crt_entry_body_accepted domain)
                  (all_accepted_empty domain)) as Hd.
    destruct (Py.for_each (crt_entry_body domain) data ∅) as [s' [e|]];
      simpl in *; [done |]. by intros [= <-].
Qed.

Lemma query_certspotter_accepted certspotter domain :
  Spec.all_accepted domain (_query_certspotter certspotter domain).2.
Proof.
  destruct certspotter as [|data]; simpl; [apply all_accepted_empty |].
  apply for_each_accepted; [| apply all_accepted_empty].
  intros [names| |] s Hs; simpl; [|done|done].
  apply for_each_accepted; [|done].
  intros [name|] s' Hs'; simpl; [by apply add_clean_accepted | done].
Qed.

Lemma query_hackertarget_accepted hackertarget domain :
  Spec.all_accepted domain (_query_hackertarget hackertarget domain).2.
Proof.
  destruct hackertarget as [|text]; simpl; [apply all_accepted_empty |].
  generalize (split newline (strip text)) as lines.
  generalize (all_accepted_empty domain). generalize (∅ : gset string) as s.
  intros s Hs lines. revert s Hs.
  induction lines as [|line lines IH]; intros s Hs; simpl; [done |].
  apply IH. unfold ht_line.
  destruct (_ && _); [by apply add_clean_accepted | done].
Qed.

(** Every name that [enumerate] returns was accepted by
    [_clean_subdomain] for the target. *)
Lemma enumerate_accepted w domain s :
  (enumerate w domain).2 = Py.Ok s → Spec.all_accepted domain s.
Proof.
  unfold enumerate, _query_crtsh.
  pose proof (crtsh_attempts_accepted (crtsh w) domain MAX_RETRIES 0) as Hc.
  destruct (crtsh_attempts (crtsh w) domain MAX_RETRIES 0) as [t1 [s1|e]];
    [|done].
  specialize (Hc s1 eq_refl).
  pose proof (query_certspotter_accepted (certspotter w) domain) as Hcs.
  pose proof (query_hackertarget_accepted (hackertarget w) domain) as Hht.
  destruct (_query_certspotter (certspotter w) domain) as [tc sc].
  destruct (_query_hackertarget (hackertarget w) domain) as [th sh].
  simpl in Hcs, Hht.
  assert (Spec.all_accepted domain (∅ ∪ s1)) as H1
    by (apply all_accepted_union; [apply all_accepted_empty | done]).
  destruct (decide (size (∅ ∪ s1) < 10)); simpl.
  - assert (Spec.all_accepted domain (∅ ∪ s1 ∪ sc)) as H2
      by by apply all_accepted_union.
    destruct (decide (size (∅ ∪ s1 ∪ sc) < 5)); simpl; intros [= <-];
      [by apply all_accepted_union | done].
  - destruct (decide (size (∅ ∪ s1) < 5)); simpl; intros [= <-];
      [by apply all_accepted_union | done].
Qed.

(** The part of the invariant that holds: a returned name ends with the
    target and is never the target itself. *)
Lemma enumerate_never_target w domain s n :
  (enumerate w domain).2 = Py.Ok s → n ∈ s →
  n ≠ domain ∧ Spec.ends_with n domain.
Proof.
  intros Hs Hn. destruct (enumerate_accepted w domain s Hs n Hn) as [raw H].
  apply clean_subdomain_accepts in H as (_ & He & Hne & _). done.
Qed.

(** C7: for the target [example.com], when crt.sh lists
    [notexample.com], [enumerate] returns that name, which is accepted
    by [_clean_subdomain] although it is not of the form labels, dot,
    target. *)
Theorem enumerate_returns_lookalike :
  _clean_subdomain "notexample.com" "example.com" = Some "notexample.com"
  ∧ (∃ s, (enumerate Scenarios.lookalike "example.com").2 = Py.Ok s
          ∧ "notexample.com" ∈ s)
  ∧ ¬ Spec.proper_subdomain "notexample.com" "example.com".
Proof.
  split; [done |]. split; [| apply lookalike_not_beneath].
  exists {[ "notexample.com" ]}.
  split; [vm_compute; reflexivity | by apply elem_of_singleton].
Qed.

End Enumerate.

(** ** Retries of the primary provider *)

Section Retry.
Import PyStr CtEnum.

Lemma crtsh_attempts_head crtsh domain remaining attempt :
  Spec.leading_sleeps (crtsh_attempts crtsh domain remaining attempt).1 = [].
Proof.
  destruct remaining as [|remaining]; simpl; [done |].
  destruct (crtsh_attempts crtsh domain remaining (S attempt)) as [t r].
  destruct (crtsh attempt) as [| |status_code body]; simpl; try done.
  destruct (status_code =? 503)%Z; [done |].
  destruct (raise_for_status status_code); [done |].
  destruct body as [| |data|]; try done.
  by destruct (Py.for_each (crt_entry_body domain) data ∅) as [s' [e|]].
Qed.

Lemma rounds_retry url (pause : Py.trace) (q : Q) (t : Py.trace) :
  pause = [] ∨ pause = [Py.Sleep q] →
  Spec.leading_sleeps t = [] →
  Spec.rounds (Py.HttpGet url :: pause ++ t)
  = match pause with [] => [] | _ => [q] end :: Spec.rounds t.
Proof. intros [-> | ->] Ht; simpl; by rewrite Ht. Qed.

Lemma crtsh_attempts_policy crtsh domain remaining attempt :
  attempt + remaining = MAX_RETRIES →
  let t := (crtsh_attempts crtsh domain remaining attempt).1 in
  let r := (crtsh_attempts crtsh domain remaining attempt).2 in
  length (Spec.rounds t) ≤ remaining
  ∧ ∀ k, k < remaining →
      (∀ j, j < k → Spec.retried (crtsh (attempt + j)) = true) →
      k < length (Spec.rounds t)
      ∧ (∀ body, crtsh (attempt + k) = Response 503 body →
           attempt + k + 1 < MAX_RETRIES →
           Spec.rounds t !! k
           = Some [inject_Z (RETRY_DELAY * (Z.of_nat (attempt + k) + 1))])
      ∧ (Spec.hard (crtsh (attempt + k)) = true →
           length (Spec.rounds t) = S k ∧ r = Py.Ok ∅).
Proof.
  revert attempt.
  induction remaining as [|remaining IH]; intros attempt Hsum; simpl.
  { split; [done | intros k Hk; lia]. }
  specialize (IH (S attempt) ltac:(lia)). simpl in IH.
  pose proof (crtsh_attempts_head crtsh domain remaining (S attempt)) as Hhd.
  destruct (crtsh_attempts crtsh domain remaining (S attempt)) as [t' r'].
  simpl in IH, Hhd. destruct IH as [IHlen IH].
  assert (∀ (pause : Py.trace) (q : Q),
            pause = [] ∨ pause = [Py.Sleep q] →
            Spec.retried (crtsh attempt) = true →
            Spec.hard (crtsh attempt) = false →
            (∀ body, crtsh attempt = Response 503 body →
               attempt + 1 < MAX_RETRIES → pause = [Py.Sleep
                 (inject_Z (RETRY_DELAY * (Z.of_nat attempt + 1)))]) →
            let t := Py.HttpGet (CRT_SH_URL domain) :: pause ++ t' in
            length (Spec.rounds t) ≤ S remaining
            ∧ ∀ k, k < S remaining →
                (∀ j, j < k → Spec.retried (crtsh (attempt + j)) = true) →
                k < length (Spec.rounds t)
                ∧ (∀ body, crtsh (attempt + k) = Response 503 body →
                     attempt + k + 1 < MAX_RETRIES →
                     Spec.rounds t !! k
                     = Some [inject_Z (RETRY_DELAY * (Z.of_nat (attempt + k) + 1))])
                ∧ (Spec.hard (crtsh (attempt + k)) = true →
                     length (Spec.rounds t) = S k ∧ r' = Py.Ok ∅)) as Hretry.
  { intros pause q Hpause Hret Hhard H503 t.
    unfold t. rewrite (rounds_retry _ pause q t' Hpause Hhd). simpl.
    split; [lia |]. intros [|k] Hk Hprev.
    - rewrite Nat.add_0_r. split; [lia |]. split; [| congruence].
      intros body Hb Hlt. simpl. pose proof (H503 body Hb Hlt) as Hp.
      destruct Hpause as [-> | ->]; [discriminate | by injection Hp as ->].
    - destruct (IH k ltac:(lia)) as (Hk1 & Hk2 & Hk3).
      { intros j Hj. replace (S (attempt + j)) with (attempt + S j) by lia.
        apply Hprev. lia. }
      replace (attempt + S k) with (S (attempt + k)) by lia.
      split; [lia |]. split.
      { intros body Hb Hlt. simpl. apply (Hk2 body Hb). lia. }
      intros Hh. destruct (Hk3 Hh) as [-> ->]. done. }
  assert (∀ r0 : Py.result (gset string),
            Spec.retried (crtsh attempt) = false →
            (Spec.hard (crtsh attempt) = true → r0 = Py.Ok ∅) →
            (∀ body, crtsh attempt ≠ Response 503 body) →
            let t := [Py.HttpGet (CRT_SH_URL domain)] in
            length (Spec.rounds t) ≤ S remaining
            ∧ ∀ k, k < S remaining →
                (∀ j, j < k → Spec.retried (crtsh (attempt + j)) = true) →
                k < length (Spec.rounds t)
                ∧ (∀ body, crtsh (attempt + k) = Response 503 body →
                     attempt + k + 1 < MAX_RETRIES →
                     Spec.rounds t !! k
                     = Some [inject_Z (RETRY_DELAY * (Z.of_nat (attempt + k) + 1))])
                ∧ (Spec.hard (crtsh (attempt + k)) = true →
                     length (Spec.rounds t) = S k ∧ r0 = Py.Ok ∅)) as Hstop.
  { intros r0 Hret Hhard H503. simpl. split; [lia |].
    intros [|k] Hk Hprev.
    - rewrite Nat.add_0_r. split; [lia |]. split; [| by auto].
      intros body Hb. by destruct (H503 body).
    - specialize (Hprev 0 ltac:(lia)). rewrite Nat.add_0_r in Hprev.
      congruence. }
  destruct (crtsh attempt) as [| |status_code body] eqn:E; simpl.
  - apply (Hretry _ (inject_Z RETRY_DELAY)); try done.
    case_decide; by auto.
  - by apply Hstop.
  - destruct (Z.eqb_spec status_code 503) as [-> | Hne].
    + apply (Hretry _ (inject_Z (RETRY_DELAY * (Z.of_nat attempt + 1))));
        try done.
      * case_decide; by auto.
      * intros body' _ Hlt. case_decide; [done |].
        unfold MAX_RETRIES in *. lia.
    + assert (Spec.retried (Response status_code body) = false) as Hnr
        by by apply Z.eqb_neq.
      assert (∀ body', Response status_code body ≠ Response 503 body') as Hn5
        by (intros body' [= ? ?]; done).
      destruct (raise_for_status status_code) eqn:Hrs; simpl.
      { by apply Hstop. }
      assert (Spec.hard (Response status_code body) = true →
              body = InvalidJson) as Hh.
      { simpl. rewrite Hrs. destruct body; simpl;
          rewrite ?andb_false_r; done. }
      destruct body as [| |data|]; simpl; try (apply Hstop; try done;
        intros Hx; by specialize (Hh Hx)).
      destruct (Py.for_each (crt_entry_body domain) data ∅) as [s' [e|]];
        apply Hstop; try done; intros Hx; by specialize (Hh Hx).
Qed.

(** C5, as amended: at most three requests are made; as long as every
    earlier answer was a timeout or the status 503, the next request is
    made; after a 503 that is not the last attempt, the pause is
    [RETRY_DELAY] times the number of the attempt; and a hard error (a
    failed request, another 4xx or 5xx status, a payload that is not
    JSON) is the last request and leaves the result empty. *)
Theorem query_crtsh_retry_policy crtsh domain :
  let t := (_query_crtsh crtsh domain).1 in
  let r := (_query_crtsh crtsh domain).2 in
  MAX_RETRIES = 3
  ∧ length (Spec.rounds t) ≤ MAX_RETRIES
  ∧ ∀ k, k < MAX_RETRIES →
      (∀ j, j < k → Spec.retried (crtsh j) = true) →
      k < length (Spec.rounds t)
      ∧ (∀ body, crtsh k = Response 503 body → k + 1 < MAX_RETRIES →
           Spec.rounds t !! k
           = Some [inject_Z (RETRY_DELAY * (Z.of_nat k + 1))])
      ∧ (Spec.hard (crtsh k) = true →
           length (Spec.rounds t) = S k ∧ r = Py.Ok ∅).
Proof.
  split; [done |].
  exact (crtsh_attempts_policy crtsh domain MAX_RETRIES 0 eq_refl).
Qed.

(** C5, as stated, fails: the status 500 is a 5xx answer, and the query
    ends after one request without a pause. *)
Lemma crtsh_status_500_not_retried :
  _query_crtsh Scenarios.server_error "example.com"
  = ([Py.HttpGet (CRT_SH_URL "example.com")], Py.Ok ∅)
  ∧ ¬ Spec.retry_policy_as_stated Scenarios.server_error "example.com".
Proof.
  split; [done |]. intros H. specialize (H 0). simpl in H.
  assert ([[]] !! 0 = Some [inject_Z (RETRY_DELAY * (0 + 1))]) as Hx;
    [| discriminate Hx].
  apply H; [unfold MAX_RETRIES; lia |].
  intros j Hj. assert (j = 0) as -> by lia.
  right. exists 500%Z, BlankText. split; [done | lia].
Qed.

(** After a timeout the pause is [RETRY_DELAY], whatever the attempt. *)
Lemma crtsh_timeouts_pauses domain :
  Spec.rounds (_query_crtsh (λ _, GetTimeout) domain).1
  = [[inject_Z RETRY_DELAY]; [inject_Z RETRY_DELAY]; []].
Proof. reflexivity. Qed.

End Retry.

(** ** Bulk resolution *)

Section ResolveBulk.
Import DnsResolver.

Variable fn : string → Py.result DNSResult.

Lemma collect_lookup (sub x : string) (results : gmap string DNSResult) :
  collect (sub, fn sub) results !! x
  = if decide (sub = x) then Some (Spec.kept sub (fn sub)) else results !! x.
Proof.
  unfold collect, Spec.kept.
  destruct (fn sub) as [r|e]; by rewrite lookup_insert.
Qed.

Lemma submit_all_lookup (names : list string) (i : nat) :
  submit_all fn names !! i = (λ sub, (sub, fn sub)) <$> names !! i.
Proof. unfold submit_all. apply list_lookup_fmap. Qed.

(** After the loop, a name has a record exactly when it was in the map
    before or one of the completed futures is for it; and the record of a
    completed future is the one kept for its outcome. *)
Lemma collect_all_lookup (names : list string) (completed : list nat)
    (m0 : gmap string DNSResult) (x : string) :
  (is_Some (collect_all (submit_all fn names) completed m0 !! x)
   ↔ is_Some (m0 !! x) ∨ ∃ i, i ∈ completed ∧ names !! i = Some x)
  ∧ ((∀ r, m0 !! x = Some r → r = Spec.kept x (fn x)) →
     ∀ r, collect_all (submit_all fn names) completed m0 !! x = Some r →
          r = Spec.kept x (fn x)).
Proof.
  unfold collect_all.
  revert m0. induction completed as [|i completed IH]; intros m0; simpl.
  { split; [| done]. split; [by left |].
    intros [H | (i & Hi & _)]; [done | by apply elem_of_nil in Hi]. }
  rewrite submit_all_lookup.
  destruct (names !! i) as [sub|] eqn:Hi; simpl.
  - destruct (IH (collect (sub, fn sub) m0)) as [IH1 IH2]. split.
    + rewrite IH1, collect_lookup. case_decide as Hd.
      * subst x. split; [intros _ | by left].
        right. exists i. split; [apply list_elem_of_here | done].
      * split.
        { intros [H | (j & Hj & Hn)]; [by left |].
          right. exists j. split; [by apply list_elem_of_further | done]. }
        { intros [H | (j & Hj & Hn)]; [by left |].
          apply elem_of_cons in Hj as [-> | Hj]; [congruence |].
          right. by exists j. }
    + intros H0. apply IH2. intros r. rewrite collect_lookup.
      case_decide as Hd; [subst x; by intros [= <-] | apply H0].
  - destruct (IH m0) as [IH1 IH2]. split; [| done].
    rewrite IH1. split.
    + intros [H | (j & Hj & Hn)]; [by left |].
      right. exists j. split; [by apply list_elem_of_further | done].
    + intros [H | (j & Hj & Hn)]; [by left |].
      apply elem_of_cons in Hj as [-> | Hj]; [congruence |].
      right. by exists j.
Qed.

Lemma resolve_bulk_with_total (K : Z) (completed : list nat)
    (names : list string) :
  completed ≡ₚ seq 0 (length names) → (0 < K)%Z →
  ∃ results,
    resolve_bulk_with fn K completed names = Py.Ok results
    ∧ dom results = list_to_set names
    ∧ ∀ sub, sub ∈ names → results !! sub = Some (Spec.kept sub (fn sub)).
Proof.
  intros Hperm HK. unfold resolve_bulk_with.
  destruct (Z.leb_spec K 0) as [Hle | _]; [lia |].
  eexists. split; [done |].
  assert (∀ x, is_Some (collect_all (submit_all fn names) completed ∅ !! x)
               ↔ x ∈ names) as Hdom.
  { intros x. rewrite (proj1 (collect_all_lookup names completed ∅ x)).
    rewrite lookup_empty, list_elem_of_lookup. split.
    - intros [[? [=]] | (i & _ & Hi)]. by exists i.
    - intros [i Hi]. right. exists i. split; [| done].
      rewrite Hperm, elem_of_seq. apply lookup_lt_Some in Hi. lia. }
  split.
  - apply set_eq. intros x.
    by rewrite elem_of_dom, elem_of_list_to_set, Hdom.
  - intros sub Hsub. apply Hdom in Hsub as [r Hr]. rewrite Hr. f_equal.
    apply (proj2 (collect_all_lookup names completed ∅ sub)) in Hr; [done |].
    intros r'. by rewrite lookup_empty.
Qed.

End ResolveBulk.

Section ResolveBulkTotal.
Import DnsResolver.

(** C3: for a positive pool size and any order of completion of the
    futures, [resolve_bulk] returns a map whose keys are exactly the input
    names, each with the record of its resolution, whatever the lookups
    answer; and for any callable given to the pool, a call that raises
    leaves a record with [is_alive] false and the text of the exception. *)
Theorem resolve_bulk_total (self : DNSResolver)
    (fn : string → Py.result DNSResult)
    (completed : list nat) (names : list string) :
  completed ≡ₚ seq 0 (length names) → (1 ≤ max_workers self)%Z →
  (∃ results,
     resolve_bulk self completed names = Py.Ok results
     ∧ dom results = list_to_set names
     ∧ ∀ sub, sub ∈ names →
         results !! sub = Some (resolve_single self sub).2)
  ∧ (∃ results,
       resolve_bulk_with fn (max_workers self) completed names = Py.Ok results
       ∧ dom results = list_to_set names
       ∧ ∀ sub, sub ∈ names →
           match fn sub with
           | Py.Ok r => results !! sub = Some r
           | Py.Raise e =>
               results !! sub
               = Some (mkDNSResult sub None false None (Some (Py.exn_str e)))
           end).
Proof.
  intros Hperm HK. split.
  - apply (resolve_bulk_with_total (λ sub, Py.Ok (resolve_single self sub).2)
             (max_workers self)); [done | lia].
  - destruct (resolve_bulk_with_total fn (max_workers self) completed names)
      as (results & Hr & Hdom & Hl); [done | lia |].
    exists results. split; [done |]. split; [done |].
    intros sub Hsub. specialize (Hl sub Hsub). unfold Spec.kept in Hl.
    by destruct (fn sub).
Qed.

(** Two names, the second future completing first, a pool of 50 workers,
    name servers that answer NXDOMAIN to everything, and a callable that
    raises for one of the names. *)
Lemma resolve_bulk_total_witness :
  (∃ results,
     resolve_bulk (mkDNSResolver 3 50 Scenarios.dead_dns) [1; 0]
       ["a.example.com"; "b.example.com"] = Py.Ok results
     ∧ dom results = list_to_set ["a.example.com"; "b.example.com"]
     ∧ ∀ sub, sub ∈ ["a.example.com"; "b.example.com"] →
         results !! sub
         = Some (resolve_single (mkDNSResolver 3 50 Scenarios.dead_dns) sub).2)
  ∧ (∃ results,
       resolve_bulk_with Scenarios.raising_worker 50 [1; 0]
         ["a.example.com"; "b.example.com"] = Py.Ok results
       ∧ dom results = list_to_set ["a.example.com"; "b.example.com"]
       ∧ ∀ sub, sub ∈ ["a.example.com"; "b.example.com"] →
           match Scenarios.raising_worker sub with
           | Py.Ok r => results !! sub = Some r
           | Py.Raise e =>
               results !! sub
               = Some (mkDNSResult sub None false None (Some (Py.exn_str e)))
           end).
Proof.
  apply (resolve_bulk_total (mkDNSResolver 3 50 Scenarios.dead_dns)
           Scenarios.raising_worker [1; 0]
           ["a.example.com"; "b.example.com"]).
  - simpl. apply perm_swap.
  - simpl. lia.
Defined.

End ResolveBulkTotal.

(** ** Batched geolocation *)

Section LocateBatch.
Import GeoIntel.

Lemma range_step_covers (len : nat) :
  len ≤ (len + BATCH_SIZE - 1) / BATCH_SIZE * BATCH_SIZE.
Proof.
  unfold BATCH_SIZE.
  pose proof (Nat.div_mod_eq (len + 100 - 1) 100) as H.
  pose proof (Nat.mod_upper_bound (len + 100 - 1) 100 ltac:(lia)) as Hm.
  lia.
Qed.

Lemma concat_slices (l : list string) (n m : nat) :
  concat (map (λ i, take n (drop i l)) (map (λ k, k * n) (seq 0 m)))
  = take (m * n) l.
Proof.
  induction m as [|m IH]; [by rewrite take_0 |].
  rewrite seq_S, !map_app, concat_app, IH. simpl.
  rewrite app_nil_r, take_take_drop. f_equal. lia.
Qed.

(** The batches are consecutive slices of the list. *)
Lemma concat_make_batches (l : list string) : concat (make_batches l) = l.
Proof.
  unfold make_batches, range_step. rewrite concat_slices.
  apply take_ge, range_step_covers.
Qed.

Lemma mark_failed_lookup (batch : list string)
    (results : gmap string GeoData) (x : string) :
  mark_failed batch results !! x
  = match results !! x with
    | Some v => Some v
    | None => if decide (x ∈ batch) then Some (failed x) else None
    end.
Proof.
  unfold mark_failed. revert results.
  induction batch as [|ip batch IH]; intros results; simpl.
  { by destruct (results !! x). }
  rewrite IH. destruct (results !! ip) as [v|] eqn:Hip.
  - destruct (results !! x) eqn:Hx; [done |].
    assert (x ≠ ip) as Hne by congruence.
    apply decide_ext. rewrite elem_of_cons. intuition congruence.
  - destruct (decide (ip = x)) as [-> | Hne].
    + rewrite lookup_insert_eq, Hip.
      by rewrite decide_True by apply list_elem_of_here.
    + rewrite lookup_insert_ne by done. destruct (results !! x); [done |].
      apply decide_ext. rewrite elem_of_cons. intuition congruence.
Qed.

(** A well-formed answer without repeated [query] is stored item by item. *)
Lemma for_each_items (items : list geo_item) (results : gmap string GeoData) :
  NoDup (map query_of items) →
  ∃ results',
    Py.for_each item_body (map Item items) results = (results', None)
    ∧ (∀ item, item ∈ items → results' !! query_of item = Some (of_item item))
    ∧ (∀ x, x ∉ map query_of items → results' !! x = results !! x).
Proof.
  revert results. induction items as [|it items IH]; intros results Hnd.
  { exists results. split; [done |]. split; [| done].
    intros item Hi. by apply elem_of_nil in Hi. }
  simpl in Hnd. apply NoDup_cons in Hnd as [Hit Hnd].
  destruct (IH (<[query_of it := of_item it]> results) Hnd)
    as (results' & Hr & Hin & Hout).
  exists results'. split; [simpl; by rewrite Hr |]. split.
  - intros item [-> | Hi]%elem_of_cons; [| by apply Hin].
    rewrite Hout by done. apply lookup_insert_eq.
  - intros x Hx. simpl in Hx. apply not_elem_of_cons in Hx as [Hne Hx].
    rewrite Hout by done. by apply lookup_insert_ne.
Qed.

Lemma batch_body_results provider n st ib :
  (batch_body provider n st ib).2 = Spec.batch_results provider st.2 ib.
Proof.
  destruct st as [t results], ib as [i batch]. unfold Spec.batch_results. simpl.
  destruct (provider i) as [|data]; [done |].
  destruct (Py.for_each item_body data results) as [r [e|]]; [done |].
  by case_decide.
Qed.

Lemma foldl_batch_results provider n l st :
  (foldl (batch_body provider n) st l).2
  = foldl (Spec.batch_results provider) st.2 l.
Proof.
  revert st. induction l as [|ib l IH]; intros st; simpl; [done |].
  by rewrite IH, batch_body_results.
Qed.

Lemma map_Item_inj (items items' : list geo_item) :
  map Item items = map Item items' → items = items'.
Proof.
  revert items'. induction items as [|it items IH]; intros [|it' items'] H;
    try done.
  simpl in H. injection H as -> H. by rewrite (IH _ H).
Qed.

End LocateBatch.

Section LocateBatchInvariant.
Import GeoIntel.

Variable provider : nat → batch_response.
Variable batches : list (list string).
Hypothesis batches_NoDup : NoDup (concat batches).
Hypothesis batches_answered :
  ∀ i batch, batches !! i = Some batch → Spec.answers_batch (provider i) batch.

(** The state of [results] after the first batches: the addresses of
    those batches are recorded, those of a failed batch as failures and
    those of an answered batch as the provider answered. *)
Lemma results_after (done_ todo : list (list string)) :
  batches = done_ ++ todo →
  let results := foldl (Spec.batch_results provider) ∅ (imap pair done_) in
  (∀ x, is_Some (results !! x) ↔ x ∈ concat done_)
  ∧ (∀ j batch x, done_ !! j = Some batch → provider j = BatchFailed →
       x ∈ batch → results !! x = Some (failed x))
  ∧ (∀ j batch items item, done_ !! j = Some batch →
       provider j = BatchJson (map Item items) → item ∈ items →
       results !! query_of item = Some (of_item item)).
Proof.
  revert todo. induction done_ as [|batch done_ IH] using rev_ind;
    intros todo Hb; cbv zeta; simpl.
  { split; [| split].
    - intros x. rewrite lookup_empty. split; [by intros [? ?] |].
      intros Hx. by apply elem_of_nil in Hx.
    - intros j b x Hj. by rewrite lookup_nil in Hj.
    - intros j b items item Hj. by rewrite lookup_nil in Hj. }
  rewrite <- app_assoc in Hb. simpl in Hb.
  destruct (IH (batch :: todo) Hb) as (I1 & I2 & I3). clear IH.
  rewrite imap_app, foldl_app. simpl. rewrite Nat.add_0_r.
  set (R := foldl (Spec.batch_results provider) ∅ (imap pair done_)) in *.
  assert (batches !! length done_ = Some batch) as Hk.
  { rewrite Hb. by rewrite list_lookup_middle. }
  assert (∀ j b, done_ !! j = Some b → batches !! j = Some b) as Hlt.
  { intros j b Hj. rewrite Hb. by apply lookup_app_l_Some. }
  assert (NoDup batch ∧ ∀ x, x ∈ batch → x ∉ concat done_) as [Hnd Hdisj].
  { pose proof batches_NoDup as H. rewrite Hb, concat_app in H. simpl in H.
    apply NoDup_app in H as (_ & Hd & H). apply NoDup_app in H as (H & _ & _).
    split; [done |]. intros x Hx Hx'. apply (Hd x Hx').
    apply elem_of_app. by left. }
  assert (∀ j b x, done_ !! j = Some b → x ∈ b → x ∈ concat done_) as Hsub.
  { intros j b x Hj Hx. apply list_elem_of_In, in_concat. exists b.
    split; apply list_elem_of_In; [by apply list_elem_of_lookup_2 in Hj | done]. }
  assert (∀ j b items item, done_ !! j = Some b →
            provider j = BatchJson (map Item items) → item ∈ items →
            query_of item ∈ b) as Hq.
  { intros j b items item Hj Hp Hi.
    destruct (batches_answered j b (Hlt j b Hj)) as [Hf | (items' & Hp' & Hperm)];
      [congruence |].
    rewrite Hp in Hp'. injection Hp' as Hp'. apply map_Item_inj in Hp'.
    subst items'. rewrite <- Hperm. by apply list_elem_of_fmap_2. }
  assert (∀ j b, (done_ ++ [batch]) !! j = Some b →
            done_ !! j = Some b ∨ (j = length done_ ∧ b = batch)) as Hcase.
  { intros j b Hj. apply lookup_app_Some in Hj as [Hj | [Hle Hj]]; [by left |].
    right. destruct (j - length done_) as [|d] eqn:Hd; simpl in Hj; [| done].
    injection Hj as <-. split; [lia | done]. }
  set (R' := Spec.batch_results provider R (length done_, batch)).
  destruct (batches_answered _ _ Hk) as [Hf | (items & Hp & Hperm)].
  - assert (R' = mark_failed batch R) as ->
      by (unfold R', Spec.batch_results; simpl; by rewrite Hf).
    split; [| split].
    + intros x. rewrite mark_failed_lookup, concat_app, elem_of_app. simpl.
      rewrite app_nil_r. specialize (I1 x).
      destruct (R !! x) eqn:Hx.
      * split; [intros _; left; by apply I1 | by eauto].
      * case_decide as Hin.
        { split; [by right | by eauto]. }
        { split; [by intros [? ?] |]. intros [Hc | Hc]; [| done].
          apply I1 in Hc as [? ?]. done. }
    + intros j b x Hj Hpj Hx. rewrite mark_failed_lookup.
      destruct (Hcase j b Hj) as [Hj' | [-> ->]].
      * by rewrite (I2 j b x Hj' Hpj Hx).
      * destruct (R !! x) eqn:HRx.
        { exfalso. apply (Hdisj x Hx), I1. by rewrite HRx. }
        by rewrite decide_True.
    + intros j b its item Hj Hpj Hi. rewrite mark_failed_lookup.
      destruct (Hcase j b Hj) as [Hj' | [-> ->]]; [| congruence].
      by rewrite (I3 j b its item Hj' Hpj Hi).
  - assert (NoDup (map query_of items)) as Hndq by by rewrite Hperm.
    destruct (for_each_items items R Hndq) as (R'' & HR & Hin & Hout).
    assert (R' = R'') as ->
      by (unfold R', Spec.batch_results; simpl; by rewrite Hp, HR).
    split; [| split].
    + intros x. rewrite concat_app, elem_of_app. simpl. rewrite app_nil_r.
      rewrite <- Hperm. destruct (decide (x ∈ map query_of items)) as [Hx | Hx].
      * split; [by right |]. intros _.
        apply list_elem_of_fmap in Hx as (item & -> & Hi).
        rewrite (Hin item Hi). by eauto.
      * rewrite (Hout x Hx), I1. split; [by left | by intros [? | ?]].
    + intros j b x Hj Hpj Hx.
      destruct (Hcase j b Hj) as [Hj' | [-> ->]]; [| congruence].
      rewrite Hout; [by apply (I2 j b) |].
      rewrite Hperm. intros Hx'. apply (Hdisj x Hx'). by apply (Hsub j b).
    + intros j b its item Hj Hpj Hi.
      destruct (Hcase j b Hj) as [Hj' | [-> ->]].
      * rewrite Hout; [by apply (I3 j b its) |].
        rewrite Hperm. intros Hx'. apply (Hdisj _ Hx').
        apply (Hsub j b); [done |]. by apply (Hq j b its).
      * rewrite Hp in Hpj. injection Hpj as Hpj. apply map_Item_inj in Hpj.
        subst its. by apply Hin.
Qed.

End LocateBatchInvariant.

Section LocateBatchTotal.
Import GeoIntel.

Lemma elem_of_make_batches (l batch : list string) :
  batch ∈ make_batches l → length batch ≤ BATCH_SIZE.
Proof.
  unfold make_batches. intros (i & -> & _)%list_elem_of_fmap.
  rewrite length_take. lia.
Qed.


Lemma lookup_two {A} (a b x : A) (i : nat) :
  [a; b] !! i = Some x → (i = 0 ∧ x = a) ∨ (i = 1 ∧ x = b).
Proof. destruct i as [|[|i]]; simpl; intros [= <-]; by auto. Qed.

Lemma query_of_located (l : list string) :
  map query_of (map Scenarios.located l) = l.
Proof. induction l as [|ip l IH]; simpl; [done | by rewrite IH]. Qed.



End LocateBatchTotal.

(** ** Pauses between batches *)

Section RateLimit.
Import GeoIntel.

Lemma for_each_item_body_end (data : list json_item)
    (results : gmap string GeoData) :
  (Py.for_each item_body data results).2
  = if Spec.answered (BatchJson data) then None else Some Py.AttributeError.
Proof.
  revert results. induction data as [|[item|] data IH]; intros results;
    simpl; [done | | done].
  apply IH.
Qed.

Lemma batch_body_trace provider n t results i batch :
  (batch_body provider n (t, results) (i, batch)).1
  = t ++ Py.HttpPost BATCH_API batch
        :: (if Spec.answered (provider i) && bool_decide (i < n - 1)
            then [Py.Sleep RATE_LIMIT_DELAY] else []).
Proof.
  unfold batch_body.
  destruct (provider i) as [|data] eqn:Hp; simpl; [done |].
  pose proof (for_each_item_body_end data results) as He. simpl in He.
  destruct (Py.for_each item_body data results) as [r [e|]]; simpl in He.
  - destruct (forallb _ data); [done |]. done.
  - destruct (forallb _ data); [| done]. simpl.
    case_decide; [by rewrite bool_decide_true, <- app_assoc
                 | by rewrite bool_decide_false].
Qed.

Lemma foldl_batch_body_trace provider n (batches : list (list string)) :
  ∀ first t results,
    (foldl (batch_body provider n) (t, results)
       (imap (λ i, pair (first + i)) batches)).1
    = t ++ Spec.batch_events provider n first batches.
Proof.
  induction batches as [|batch batches IH]; intros first t results.
  { simpl. by rewrite app_nil_r. }
  change (imap (λ i, pair (first + i)) (batch :: batches))
    with ((first + 0, batch) :: imap ((λ i, pair (first + i)) ∘ S) batches).
  change (foldl ?f ?a (?x :: ?l)) with (foldl f (f a x) l).
  rewrite Nat.add_0_r.
  pose proof (batch_body_trace provider n t results first batch) as Hb.
  destruct (batch_body provider n (t, results) (first, batch)) as [t' results'].
  simpl in Hb. subst t'.
  rewrite (imap_ext _ (λ i, pair (S first + i)))
    by (intros; simpl; f_equal; lia).
  rewrite IH, <- app_assoc. done.
Qed.

(** The trace of [locate_batch], for every input: one request for each
    batch, and a pause after a batch only when its request was answered,
    all of the answer was read, and the batch is not the last. *)
Lemma locate_batch_trace set_order provider ips :
  (locate_batch set_order provider ips).1
  = Spec.batch_events provider
      (length (make_batches (set_order (list_to_set ips)))) 0
      (make_batches (set_order (list_to_set ips))).
Proof.
  unfold locate_batch.
  exact (foldl_batch_body_trace provider _ _ 0 [] ∅).
Qed.

(** C6: 150 addresses make two batches; when the request of the first
    batch fails, the request of the second batch follows it at once, with
    no pause between the two; when it is answered, the pause is there. *)
Theorem locate_batch_no_pause_after_failure :
  let unique_ips := elements (list_to_set Scenarios.addresses150 : gset string) in
  make_batches unique_ips = [take 100 unique_ips; drop 100 unique_ips]
  ∧ (locate_batch elements Scenarios.first_batch_fails Scenarios.addresses150).1
    = [Py.HttpPost BATCH_API (take 100 unique_ips);
       Py.HttpPost BATCH_API (drop 100 unique_ips)]
  ∧ (locate_batch elements Scenarios.second_batch_fails Scenarios.addresses150).1
    = [Py.HttpPost BATCH_API (take 100 unique_ips);
       Py.Sleep RATE_LIMIT_DELAY;
       Py.HttpPost BATCH_API (drop 100 unique_ips)].
Proof.
  intros unique_ips.
  assert (make_batches unique_ips = [take 100 unique_ips; drop 100 unique_ips])
    as Hb by (vm_compute; reflexivity).
  split; [done |].
  rewrite !locate_batch_trace. fold unique_ips. rewrite Hb.
  split; reflexivity.
Qed.

End RateLimit.

(** ** The orchestrator *)

Section Orchestrator.
Import PyStr Overseer.

Lemma elem_of_subdomain_list_of (target x : string) (subdomains : gset string) :
  x ∈ subdomain_list_of target subdomains ↔ x ∈ subdomains ∨ x = target.
Proof.
  unfold subdomain_list_of, sorted.
  rewrite merge_sort_Permutation, elem_of_elements, elem_of_union,
    elem_of_singleton. done.
Qed.

Lemma truthy_append_dot (a b : string) : truthy (a +:+ "." +:+ b) = true.
Proof. by destruct a. Qed.

(** The text of an address is not empty. *)
Lemma truthy_ipv4_str (a : DnsResolver.ipv4) :
  truthy (DnsResolver.ipv4_str a) = true.
Proof. apply truthy_append_dot. Qed.

(** An alive record of [resolve_single] has an address that counts as
    true. *)
Lemma resolve_single_alive (self : DnsResolver.DNSResolver) (sub : string) :
  DnsResolver.is_alive (DnsResolver.resolve_single self sub).2 = true →
  alive_with_ip (sub, (DnsResolver.resolve_single self sub).2).
Proof.
  unfold alive_with_ip, DnsResolver.resolve_single.
  destruct (DnsResolver.resolve_A _ sub); simpl; try done.
  intros _. split; [done | apply truthy_ipv4_str].
Qed.

(** The records that the resolution phase returns are those of
    [resolve_single]. *)
Lemma dns_phase_records rt w args subdomain_list dns_results sub r :
  dns_phase rt w args subdomain_list = Py.Ok dns_results →
  dns_results !! sub = Some r →
  r = (DnsResolver.resolve_single
         (DnsResolver.mkDNSResolver (timeout args) (threads args) (nameservers w))
         sub).2.
Proof.
  unfold dns_phase, DnsResolver.resolve_bulk, DnsResolver.resolve_bulk_with.
  destruct (_ <=? 0)%Z; [done |]. intros [= <-] Hr.
  apply (proj2 (collect_all_lookup _ _ _ ∅ sub)) in Hr; [done |].
  intros r'. by rewrite lookup_empty.
Qed.

(** C9: when the enumeration is empty, or the resolution of the run finds
    no name alive, [run_reconnaissance] returns [None] after steps of
    enumeration and resolution only (no geolocation, no records, no
    output), and [main] answers [None] with the panel for insufficient
    data and [sys.exit(1)], which no exception of the run produces. *)
Theorem run_reconnaissance_insufficient (rt : runtime) (w : world) (args : Args) :
  Spec.insufficient rt w args →
  (run_reconnaissance rt w args).2 = Py.Ok None
  ∧ (∀ st, st ∈ (run_reconnaissance rt w args).1 → Spec.before_geolocation st)
  ∧ main (run_end_of (run_reconnaissance rt w args).2)
    = ([ReconnaissanceIncomplete], SystemExit 1)
  ∧ (∀ e, main (Raised e) = ([FatalError e], Propagate e))
  ∧ (∀ e, main (Raised e) ≠ main (run_end_of (run_reconnaissance rt w args).2)).
Proof.
  intros Hins.
  assert ((run_reconnaissance rt w args).2 = Py.Ok None
          ∧ ∀ st, st ∈ (run_reconnaissance rt w args).1 →
                  Spec.before_geolocation st) as [Hr Hs].
  { unfold run_reconnaissance.
    destruct Hins as [-> | (subdomains & dns_results & -> & Hd & Hdead)].
    - rewrite decide_True by done. split; [done |].
      intros st Hst. simpl in Hst.
      repeat (apply elem_of_cons in Hst as [-> | Hst]); simpl; try lia.
      by apply elem_of_nil in Hst.
    - destruct (decide (subdomains = ∅)).
      + split; [done |]. intros st Hst. simpl in Hst.
        repeat (apply elem_of_cons in Hst as [-> | Hst]); simpl; try lia.
        by apply elem_of_nil in Hst.
      + rewrite Hd. rewrite decide_True.
        * split; [done |]. intros st Hst. simpl in Hst.
          repeat (apply elem_of_cons in Hst as [-> | Hst]); simpl; try lia;
            try done.
          by apply elem_of_nil in Hst.
        * apply map_empty_filter_2. intros sub r Hsub [Ha _]. simpl in Ha.
          rewrite (Hdead sub r Hsub) in Ha. done. }
  split; [done |]. split; [done |]. rewrite Hr. simpl.
  split; [done |]. split; [done |]. intros e. done.
Qed.

(** No provider knows a name of the target. *)
Lemma run_reconnaissance_insufficient_witness :
  (run_reconnaissance Scenarios.in_order Scenarios.world_silent
     Scenarios.args_example).2 = Py.Ok None
  ∧ (∀ st, st ∈ (run_reconnaissance Scenarios.in_order Scenarios.world_silent
                   Scenarios.args_example).1 → Spec.before_geolocation st)
  ∧ main (run_end_of (run_reconnaissance Scenarios.in_order
                        Scenarios.world_silent Scenarios.args_example).2)
    = ([ReconnaissanceIncomplete], SystemExit 1)
  ∧ (∀ e, main (Raised e) = ([FatalError e], Propagate e))
  ∧ (∀ e, main (Raised e)
          ≠ main (run_end_of (run_reconnaissance Scenarios.in_order
                                Scenarios.world_silent Scenarios.args_example).2)).
Proof.
  apply (run_reconnaissance_insufficient Scenarios.in_order
           Scenarios.world_silent Scenarios.args_example).
  left. vm_compute. reflexivity.
Defined.

(** Names are known, and none of them resolves. *)
Lemma insufficient_when_all_dead :
  Spec.insufficient Scenarios.in_order Scenarios.world_dead Scenarios.args_example
  ∧ run_reconnaissance Scenarios.in_order Scenarios.world_dead
      Scenarios.args_example
    = ([Phase 1; CallEnumerate "example.com"; Phase 2;
        CallResolveBulk ["api.example.com"; "example.com"; "old.example.com"]],
       Py.Ok None).
Proof.
  split; [| vm_compute; reflexivity]. right.
  exists {[ "api.example.com"; "old.example.com" ]}.
  set (l := subdomain_list_of (target_of Scenarios.args_example)
              {[ "api.example.com"; "old.example.com" ]}).
  set (self := DnsResolver.mkDNSResolver 3 50 Scenarios.dead_dns).
  assert (dns_phase Scenarios.in_order Scenarios.world_dead
            Scenarios.args_example l
          = Py.Ok (DnsResolver.collect_all
                     (DnsResolver.submit_all
                        (λ sub, Py.Ok (DnsResolver.resolve_single self sub).2) l)
                     (seq 0 (length l)) ∅)) as Hd by reflexivity.
  eexists. split; [vm_compute; reflexivity |]. split; [exact Hd |].
  intros sub r Hr. apply (dns_phase_records _ _ _ _ _ sub r Hd) in Hr.
  by subst r.
Qed.

Lemma tactical_output_steps args df st :
  st ∈ tactical_output args df →
  st = Phase 5 ∨ st = CallPrintSummary
  ∨ (∃ n path, st = CallGenerate n path) ∨ ∃ path, st = CallToCsv path.
Proof.
  unfold tactical_output. rewrite !elem_of_app, !elem_of_cons.
  intros [[-> | [-> | Hst]] | [Hst | Hst]]; [by auto | by auto | | |].
  - by apply elem_of_nil in Hst.
  - destruct (no_map args); [by apply elem_of_nil in Hst |].
    destruct (filter _ df); [by apply elem_of_nil in Hst |].
    apply list_elem_of_singleton in Hst. by eauto 10.
  - destruct (csv args) as [path|]; [| by apply elem_of_nil in Hst].
    destruct (truthy path); [| by apply elem_of_nil in Hst].
    apply list_elem_of_singleton in Hst. by eauto 10.
Qed.

(** The resolver is only ever called with the list made of the enumerated
    names and the target. *)
Lemma resolver_called_with_target rt w args l :
  CallResolveBulk l ∈ (run_reconnaissance rt w args).1 → target_of args ∈ l.
Proof.
  unfold run_reconnaissance.
  destruct (CtEnum.enumerate (providers w) (target_of args)).2
    as [subdomains | e]; simpl.
  2: { rewrite !elem_of_cons, elem_of_nil. by intros [? | [? | ?]]. }
  destruct (decide (subdomains = ∅)); simpl.
  { rewrite !elem_of_cons, elem_of_nil. by intros [? | [? | ?]]. }
  assert (∀ rest, CallResolveBulk l
                    ∈ Phase 1 :: CallEnumerate (target_of args) :: Phase 2
                      :: CallResolveBulk
                           (subdomain_list_of (target_of args) subdomains)
                      :: rest →
                  CallResolveBulk l ∉ rest → target_of args ∈ l) as Hhead.
  { intros rest. rewrite !elem_of_cons.
    intros [? | [? | [? | [[= ->] | ?]]]] Hrest; try done.
    apply elem_of_subdomain_list_of. by right. }
  destruct (dns_phase rt w args _) as [dns_results | e]; simpl.
  2: { intros H. apply (Hhead [] H), not_elem_of_nil. }
  destruct (decide (filter alive_with_ip dns_results = ∅)); simpl.
  { intros H. apply (Hhead [] H), not_elem_of_nil. }
  intros H. apply (Hhead _ H).
  rewrite !not_elem_of_cons. repeat (split; [done |]).
  intros Hst. apply tactical_output_steps in Hst
    as [? | [? | [(? & ? & ?) | (? & ?)]]]; done.
Qed.



End Orchestrator.

(** * Further properties of the code *)

(** ** More on [_clean_subdomain] *)

Section MoreCleanSubdomain.
Import PyStr CtEnum.

(** For all names and targets, [_clean_subdomain] returns a name exactly
    when that name is the normalized entry, ends with the target, is not
    the target, and is a name of the pattern or such a name followed by
    one line feed. *)
Theorem clean_subdomain_exact (name domain r : string) :
  _clean_subdomain name domain = Some r
  ↔ r = Spec.normalize name
    ∧ Spec.ends_with r domain
    ∧ r ≠ domain
    ∧ (Spec.in_pattern r ∨ ∃ r0, r = r0 +:+ Spec.LF ∧ Spec.in_pattern r0).
Proof. apply clean_subdomain_accepts. Qed.

Lemma is_inner_plain (c : ascii) :
  is_inner c = true →
  isspace c = false ∧ lower_char c = c ∧ c ≠ "*"%char.
Proof.
  destruct c as [[] [] [] [] [] [] [] []]; intros H;
    try discriminate H; repeat split; done.
Qed.

Lemma chars_append (a b : string) :
  Spec.chars (a +:+ b) = Spec.chars a ++ Spec.chars b.
Proof.
  induction a as [|x a IH]; [done |].
  rewrite append_cons. simpl. by rewrite IH.
Qed.

Lemma is_alnum_inner (c : ascii) : is_alnum c = true → is_inner c = true.
Proof. unfold is_inner. by intros ->. Qed.

Lemma in_pattern_chars (s : string) :
  Spec.in_pattern s → ∀ c, c ∈ Spec.chars s → is_inner c = true.
Proof.
  intros (f & i & l & -> & Hf & Hi & Hl) c. simpl.
  rewrite chars_append. simpl.
  rewrite elem_of_cons, elem_of_app, elem_of_cons, elem_of_nil.
  intros [-> | [Hc | [-> | []]]];
    [by apply is_alnum_inner | by apply Hi | by apply is_alnum_inner].
Qed.

Lemma lower_plain (s : string) :
  (∀ c, c ∈ Spec.chars s → is_inner c = true) → lower s = s.
Proof.
  induction s as [|c s IH]; intros H; simpl; [done |].
  rewrite IH by (intros x Hx; apply H; simpl; by apply list_elem_of_further).
  destruct (is_inner_plain c) as (_ & -> & _); [| done].
  apply H. simpl. apply list_elem_of_here.
Qed.

Lemma rstrip_plain (s : string) :
  (∀ c, c ∈ Spec.chars s → is_inner c = true) → rstrip s = s.
Proof.
  induction s as [|c s IH]; intros H; simpl; [done |].
  rewrite IH by (intros x Hx; apply H; simpl; by apply list_elem_of_further).
  destruct (is_inner_plain c) as (-> & _ & _).
  { apply H. simpl. apply list_elem_of_here. }
  by destruct s.
Qed.

Lemma strip_plain (s : string) :
  (∀ c, c ∈ Spec.chars s → is_inner c = true) → strip s = s.
Proof.
  intros H. unfold strip. rewrite rstrip_plain by done.
  destruct s as [|c s]; simpl; [done |].
  destruct (is_inner_plain c) as (-> & _ & _); [| done].
  apply H. simpl. apply list_elem_of_here.
Qed.

Lemma normalize_plain (s : string) :
  (∀ c, c ∈ Spec.chars s → is_inner c = true) → Spec.normalize s = s.
Proof.
  intros H. unfold Spec.normalize.
  rewrite strip_plain, lower_plain by done.
  destruct s as [|c s]; [done |].
  destruct (is_inner_plain c) as (_ & _ & Hstar).
  { apply H. simpl. apply list_elem_of_here. }
  unfold startswith.
  destruct (String.prefix "*" (String c s)) eqn:E; [| done].
  apply prefix_spec in E as [post E]. rewrite append_cons in E.
  injection E as Hc _. congruence.
Qed.

(** A name that [_clean_subdomain] returned is returned unchanged when it
    is cleaned again for the same target, provided it does not end with a
    line feed. *)
Theorem clean_subdomain_fixed_point (name domain r : string) :
  _clean_subdomain name domain = Some r →
  ¬ Spec.ends_with r Spec.LF →
  _clean_subdomain r domain = Some r.
Proof.
  intros Hr Hnl.
  apply clean_subdomain_accepts in Hr as (_ & He & Hne & [Hp | (r0 & -> & _)]).
  2: { destruct Hnl. by exists r0. }
  apply clean_subdomain_accepts. split; [| by auto].
  symmetry. apply normalize_plain. by apply in_pattern_chars.
Qed.

Lemma clean_subdomain_fixed_point_witness :
  _clean_subdomain "www.example.com" "example.com" = Some "www.example.com".
Proof.
  apply (clean_subdomain_fixed_point " *.WWW.Example.com" "example.com").
  - reflexivity.
  - intros [p H]. apply (f_equal (λ s, last (Spec.chars s))) in H.
    rewrite chars_append in H. unfold Spec.LF in H. simpl in H.
    rewrite last_snoc in H. discriminate H.
Defined.

End MoreCleanSubdomain.

(** ** More on the providers *)

Section MoreProviders.
Import PyStr CtEnum.

Lemma for_each_app {X S : Type} (body : X → S → S * option Py.exn)
    (xs ys : list X) (s : S) :
  Py.for_each body (xs ++ ys) s
  = match Py.for_each body xs s with
    | (s', None) => Py.for_each body ys s'
    | (s', Some e) => (s', Some e)
    end.
Proof.
  revert s. induction xs as [|x xs IH]; intros s; simpl; [done |].
  destruct (body x s) as [s' [e|]]; [done | apply IH].
Qed.

Lemma for_each_not_an_entry domain data s :
  NotAnEntry ∈ data →
  (Py.for_each (crt_entry_body domain) data s).2 = Some Py.AttributeError.
Proof.
  revert s. induction data as [|entry data IH]; intros s Hin.
  { by apply elem_of_nil in Hin. }
  apply elem_of_cons in Hin as [<- | Hin]; [done |].
  simpl. destruct (crt_entry_body domain entry s) as [s' [e|]] eqn:Hb.
  - destruct entry; inversion Hb; done.
  - by apply IH.
Qed.

(** When the first answer of crt.sh is a JSON array that holds something
    that is not an object, [enumerate] raises AttributeError after that
    single request: the names read before it are lost and neither
    CertSpotter nor HackerTarget is asked. *)
Theorem enumerate_raises_on_malformed_entry (w : sources) (domain : string)
    (status_code : Z) (data : list crt_entry) :
  crtsh w 0 = Response status_code (JsonArray data) →
  status_code ≠ 503%Z →
  raise_for_status status_code = false →
  NotAnEntry ∈ data →
  enumerate w domain
  = ([Py.HttpGet (CRT_SH_URL domain)], Py.Raise Py.AttributeError).
Proof.
  intros Hr H503 Hrs Hin. unfold enumerate, _query_crtsh, MAX_RETRIES.
  change (crtsh_attempts (crtsh w) domain 3 0)
    with (let retry (pause : Py.trace) :=
            let '(t, r) := crtsh_attempts (crtsh w) domain 2 1 in
            (Py.HttpGet (CRT_SH_URL domain) :: pause ++ t, r) in
          let stop (r : Py.result (gset string)) :=
            ([Py.HttpGet (CRT_SH_URL domain)], r) in
          match crtsh w 0 with
          | Response status_code body =>
              if (status_code =? 503)%Z then
                retry (if decide (0 < 3 - 1)
                       then [Py.Sleep (inject_Z (RETRY_DELAY * (Z.of_nat 0 + 1)))]
                       else [])
              else if raise_for_status status_code then stop (Py.Ok ∅)
              else match body with
                   | BlankText => stop (Py.Ok ∅)
                   | InvalidJson => stop (Py.Ok ∅)
                   | JsonScalar => stop (Py.Raise Py.TypeError)
                   | JsonArray data =>
                       match Py.for_each (crt_entry_body domain) data ∅ with
                       | (subdomains, None) => stop (Py.Ok subdomains)
                       | (_, Some e) => stop (Py.Raise e)
                       end
                   end
          | GetTimeout =>
              retry (if decide (0 < 3 - 1)
                     then [Py.Sleep (inject_Z RETRY_DELAY)]
                     else [])
          | GetError => stop (Py.Ok ∅)
          end).
  cbv zeta. rewrite Hr, Hrs.
  destruct (Z.eqb_spec status_code 503) as [? | _]; [done |].
  pose proof (for_each_not_an_entry domain data ∅ Hin) as He.
  destruct (Py.for_each (crt_entry_body domain) data ∅) as [s' [e|]];
    simpl in He; [| done].
  by injection He as ->.
Qed.

Lemma enumerate_raises_on_malformed_entry_witness :
  enumerate More.malformed_crtsh "example.com"
  = ([Py.HttpGet (CRT_SH_URL "example.com")], Py.Raise Py.AttributeError).
Proof.
  apply (enumerate_raises_on_malformed_entry More.malformed_crtsh "example.com"
           200 [NameValue "www.example.com"; NotAnEntry]).
  - reflexivity.
  - lia.
  - reflexivity.
  - apply list_elem_of_further, list_elem_of_here.
Defined.

Lemma add_names_app domain (a b : list string) (s : gset string) :
  add_names domain (a ++ b) s = add_names domain b (add_names domain a s).
Proof. unfold add_names. apply foldl_app. Qed.

Lemma for_each_dns_names domain (names : list string) (s : gset string) :
  Py.for_each (cs_name_body domain) (map DnsName names) s
  = (add_names domain names s, None).
Proof.
  revert s. induction names as [|name names IH]; intros s; simpl; [done |].
  apply IH.
Qed.

Lemma for_each_issuances domain (nss : list (list string)) (s : gset string) :
  Py.for_each (cs_entry_body domain) (map More.issuance nss) s
  = (add_names domain (concat nss) s, None).
Proof.
  revert s. induction nss as [|ns nss IH]; intros s; [done |].
  simpl. rewrite for_each_dns_names, IH, add_names_app. done.
Qed.

(** CertSpotter keeps what it has read when its answer turns out to be
    malformed: the names of the issuances before an element that is not an
    issuance, and the names before a name that is not a string, are
    returned as if the answer ended there. *)
Theorem query_certspotter_keeps_partial (domain : string)
    (nss : list (list string)) (ns : list string)
    (more : list cs_name) (rest : list cs_entry) :
  (_query_certspotter (CsJson (map More.issuance nss ++ NotAnIssuance :: rest))
     domain).2
  = (_query_certspotter (CsJson (map More.issuance nss)) domain).2
  ∧ (_query_certspotter
       (CsJson (map More.issuance nss
                ++ DnsNames (map DnsName ns ++ NotAString :: more) :: rest))
       domain).2
    = (_query_certspotter (CsJson (map More.issuance (nss ++ [ns]))) domain).2
  ∧ (_query_certspotter (CsJson (map More.issuance nss)) domain).2
    = add_names domain (concat nss) ∅.
Proof.
  unfold _query_certspotter. cbn [snd].
  rewrite !for_each_app, !for_each_issuances. cbn [fst].
  split; [done |]. split; [| done].
  cbn [Py.for_each cs_entry_body].
  rewrite for_each_app, for_each_dns_names. cbn [Py.for_each cs_name_body fst].
  rewrite concat_app, add_names_app. simpl. by rewrite app_nil_r.
Qed.

End MoreProviders.

Section MoreEnumerate.
Import PyStr CtEnum.

Lemma crtsh_attempts_events crtsh domain remaining attempt e :
  e ∈ (crtsh_attempts crtsh domain remaining attempt).1 →
  e = Py.HttpGet (CRT_SH_URL domain) ∨ ∃ q, e = Py.Sleep q.
Proof.
  revert attempt. induction remaining as [|remaining IH]; intros attempt; simpl.
  { intros H. by apply elem_of_nil in H. }
  specialize (IH (S attempt)).
  destruct (crtsh_attempts crtsh domain remaining (S attempt)) as [t r].
  simpl in IH.
  assert (∀ pause : Py.trace,
            (∀ x, x ∈ pause → ∃ q, x = Py.Sleep q) →
            e ∈ Py.HttpGet (CRT_SH_URL domain) :: pause ++ t →
            e = Py.HttpGet (CRT_SH_URL domain) ∨ ∃ q, e = Py.Sleep q) as Hretry.
  { intros pause Hp. rewrite elem_of_cons, elem_of_app.
    intros [-> | [H | H]]; [by left | right; by apply Hp | by apply IH]. }
  assert (∀ q, ∀ x, x ∈ (if decide (attempt < MAX_RETRIES - 1)
                          then [Py.Sleep q] else []) → ∃ q', x = Py.Sleep q')
    as Hpause.
  { intros q x. case_decide; [| intros Hx; by apply elem_of_nil in Hx].
    intros ->%list_elem_of_singleton. by exists q. }
  assert (∀ r0 : Py.result (gset string),
            e ∈ ([Py.HttpGet (CRT_SH_URL domain)], r0).1 →
            e = Py.HttpGet (CRT_SH_URL domain) ∨ ∃ q, e = Py.Sleep q) as Hstop.
  { intros r0 ->%list_elem_of_singleton. by left. }
  destruct (crtsh attempt) as [| |status_code body]; simpl.
  - apply Hretry, Hpause.
  - apply (Hstop (Py.Ok ∅)).
  - destruct (status_code =? 503)%Z; [apply Hretry, Hpause |].
    destruct (raise_for_status status_code); [apply (Hstop (Py.Ok ∅)) |].
    destruct body as [| |data|]; try apply (Hstop (Py.Ok ∅)).
    destruct (Py.for_each (crt_entry_body domain) data ∅) as [s' [x|]];
      apply Hstop.
Qed.

Lemma hackertarget_url_not_crtsh domain :
  Py.HttpGet (HACKERTARGET_URL domain) ≠ Py.HttpGet (CRT_SH_URL domain).
Proof.
  intros H. discriminate H.
Qed.

(** The order of the fallback: the names of crt.sh are always part of the
    result; when crt.sh gives 10 names or more, they are the result and no
    other provider is asked; and HackerTarget is never asked unless
    CertSpotter was asked before. *)
Theorem enumerate_fallback_order (w : sources) (domain : string)
    (crt_results subdomains : gset string) :
  (_query_crtsh (crtsh w) domain).2 = Py.Ok crt_results →
  (enumerate w domain).2 = Py.Ok subdomains →
  crt_results ⊆ subdomains
  ∧ (10 ≤ size crt_results →
     subdomains = crt_results
     ∧ (enumerate w domain).1 = (_query_crtsh (crtsh w) domain).1)
  ∧ (Py.HttpGet (HACKERTARGET_URL domain) ∈ (enumerate w domain).1 →
     Py.HttpGet (CERTSPOTTER_URL domain) ∈ (enumerate w domain).1).
Proof.
  unfold enumerate.
  pose proof (crtsh_attempts_events (crtsh w) domain MAX_RETRIES 0
                (Py.HttpGet (HACKERTARGET_URL domain))) as Hev.
  fold (_query_crtsh (crtsh w) domain) in Hev.
  destruct (_query_crtsh (crtsh w) domain) as [t1 [crt|e]]; cbn [snd];
    [| done].
  intros [= ->]. cbv beta iota. cbn [fst] in Hev.
  unfold _query_certspotter, _query_hackertarget.
  set (sc := match certspotter w with CsFailed => ∅ | CsJson data => _ end).
  set (sh := match hackertarget w with HtFailed => ∅ | HtText text => _ end).
  rewrite (left_id_L ∅ (∪) crt_results).
  destruct (decide (size crt_results < 10)) as [H10 | H10]; cbv beta iota.
  - assert (Py.HttpGet (CERTSPOTTER_URL domain)
              ∈ t1 ++ [Py.HttpGet (CERTSPOTTER_URL domain)]
                   ++ [Py.HttpGet (HACKERTARGET_URL domain)]) as Hcs1.
    { rewrite elem_of_app. right. apply list_elem_of_here. }
    assert (Py.HttpGet (CERTSPOTTER_URL domain)
              ∈ t1 ++ [Py.HttpGet (CERTSPOTTER_URL domain)] ++ []) as Hcs2.
    { rewrite elem_of_app. right. apply list_elem_of_here. }
    destruct (decide (size (crt_results ∪ sc) < 5)); cbv beta iota;
      cbn [fst snd]; intros [= <-].
    + split; [| split; [lia | done]].
      etrans; apply union_subseteq_l.
    + split; [apply union_subseteq_l | split; [lia | done]].
  - destruct (decide (size crt_results < 5)); [lia |].
    cbv beta iota. cbn [fst snd]. intros [= <-].
    split; [done |]. split; [intros _; by rewrite !app_nil_r |].
    rewrite !app_nil_r. intros H. destruct (Hev H) as [Hx | [q Hx]].
    + by apply hackertarget_url_not_crtsh in Hx.
    + discriminate Hx.
Qed.

Lemma enumerate_fallback_order_witness :
  ({[ "api.example.com"; "old.example.com" ]} : gset string)
    ⊆ {[ "api.example.com"; "old.example.com" ]}
  ∧ (10 ≤ size ({[ "api.example.com"; "old.example.com" ]} : gset string) →
     ({[ "api.example.com"; "old.example.com" ]} : gset string)
     = {[ "api.example.com"; "old.example.com" ]}
     ∧ (enumerate Scenarios.two_names "example.com").1
       = (_query_crtsh (crtsh Scenarios.two_names) "example.com").1)
  ∧ (Py.HttpGet (HACKERTARGET_URL "example.com")
       ∈ (enumerate Scenarios.two_names "example.com").1 →
     Py.HttpGet (CERTSPOTTER_URL "example.com")
       ∈ (enumerate Scenarios.two_names "example.com").1).
Proof.
  apply (enumerate_fallback_order Scenarios.two_names "example.com");
    vm_compute; reflexivity.
Defined.

End MoreEnumerate.

Section MoreHackerTarget.
Import PyStr CtEnum.

Lemma contains_char_elem (c : ascii) (s : string) :
  contains (String c "") s = true → c ∈ Spec.chars s.
Proof.
  intros (pre & post & ->)%contains_spec.
  rewrite chars_append, append_cons. simpl.
  rewrite elem_of_app. right. apply list_elem_of_here.
Qed.

Lemma chars_lstrip (s : string) (c : ascii) :
  c ∈ Spec.chars (lstrip s) → c ∈ Spec.chars s.
Proof.
  induction s as [|x s IH]; simpl; [done |].
  destruct (isspace x); [| done].
  intros H. by apply list_elem_of_further, IH.
Qed.

Lemma chars_rstrip (s : string) (c : ascii) :
  c ∈ Spec.chars (rstrip s) → c ∈ Spec.chars s.
Proof.
  induction s as [|x s IH]; simpl; [done |].
  destruct (rstrip s) as [|y r] eqn:Hr.
  - destruct (isspace x); simpl.
    + intros H. by apply elem_of_nil in H.
    + intros ->%list_elem_of_singleton. apply list_elem_of_here.
  - simpl. rewrite !elem_of_cons. intros [-> | H]; [by left |].
    right. apply IH. simpl. by rewrite elem_of_cons.
Qed.

Lemma chars_split (sep : ascii) (s line : string) (c : ascii) :
  line ∈ split sep s → c ∈ Spec.chars line → c ∈ Spec.chars s.
Proof.
  revert line. induction s as [|x s IH]; intros line; simpl.
  { by intros ->%list_elem_of_singleton. }
  destruct (Ascii.eqb x sep).
  - intros [-> | H]%elem_of_cons Hc; [by apply elem_of_nil in Hc |].
    apply list_elem_of_further. by apply (IH line).
  - destruct (split sep s) as [|h t] eqn:Hs.
    + intros ->%list_elem_of_singleton. simpl.
      intros ->%list_elem_of_singleton. apply list_elem_of_here.
    + intros [-> | H]%elem_of_cons; simpl.
      * rewrite !elem_of_cons. intros [-> | Hc]; [by left |].
        right. apply (IH h); [apply list_elem_of_here | done].
      * intros Hc. apply list_elem_of_further, (IH line); [| done].
        by apply list_elem_of_further.
Qed.

(** A HackerTarget answer without any comma, such as the plain text it
    sends instead of a host list, gives no name at all. *)
Theorem query_hackertarget_without_comma (text domain : string) :
  More.free_of "," text →
  (_query_hackertarget (HtText text) domain).2 = ∅.
Proof.
  intros Hfree. unfold _query_hackertarget. cbn [snd].
  assert (∀ line, line ∈ split newline (strip text) →
                  contains "," line = false) as Hlines.
  { intros line Hl. destruct (contains "," line) eqn:Hc; [| done].
    destruct Hfree. apply contains_char_elem in Hc.
    apply chars_rstrip, chars_lstrip. by apply (chars_split newline _ line). }
  revert Hlines. generalize (split newline (strip text)) as lines.
  intros lines Hlines.
  induction lines as [|line lines IH] using rev_ind; [done |].
  rewrite foldl_app. simpl. rewrite IH.
  - unfold ht_line. rewrite Hlines; [done |].
    apply elem_of_app. right. apply list_elem_of_here.
  - intros l Hl. apply Hlines, elem_of_app. by left.
Qed.

Lemma query_hackertarget_without_comma_witness :
  (_query_hackertarget
     (HtText "API count exceeded - Increase Quota with Membership")
     "example.com").2 = ∅.
Proof.
  apply (query_hackertarget_without_comma
           "API count exceeded - Increase Quota with Membership" "example.com").
  unfold More.free_of. vm_compute. intros H.
  repeat (apply elem_of_cons in H as [H | H]; [discriminate H |]).
  by apply elem_of_nil in H.
Defined.

End MoreHackerTarget.

Section MoreRetry.
Import PyStr CtEnum.

Lemma crtsh_attempts_last crtsh domain remaining attempt :
  attempt + remaining = MAX_RETRIES → 0 < remaining →
  last (Spec.rounds (crtsh_attempts crtsh domain remaining attempt).1)
  = Some [].
Proof.
  revert attempt.
  induction remaining as [|remaining IH]; intros attempt Hsum Hpos; [lia |].
  simpl.
  pose proof (crtsh_attempts_head crtsh domain remaining (S attempt)) as Hhd.
  specialize (IH (S attempt)).
  assert (∀ (pause : Py.trace) (q : Q),
            pause = (if decide (attempt < MAX_RETRIES - 1)
                     then [Py.Sleep q] else []) →
            last (Spec.rounds
                    (Py.HttpGet (CRT_SH_URL domain)
                     :: pause
                        ++ (crtsh_attempts crtsh domain remaining (S attempt)).1))
            = Some []) as Hretry.
  { intros pause q Hp.
    rewrite (rounds_retry _ pause q _); [| subst pause; case_decide; by auto
                                         | done].
    destruct remaining as [|remaining].
    - simpl. subst pause. case_decide; [unfold MAX_RETRIES in *; lia | done].
    - specialize (IH ltac:(lia) ltac:(lia)).
      destruct (Spec.rounds _) as [|r rs]; [done |].
      by rewrite last_cons, IH. }
  destruct (crtsh_attempts crtsh domain remaining (S attempt)) as [t r].
  simpl in Hretry.
  destruct (crtsh attempt) as [| |status_code body]; simpl.
  - by apply (Hretry _ (inject_Z RETRY_DELAY)).
  - done.
  - destruct (status_code =? 503)%Z.
    { by apply (Hretry _ (inject_Z (RETRY_DELAY * (Z.of_nat attempt + 1)))). }
    destruct (raise_for_status status_code); [done |].
    destruct body as [| |data|]; try done.
    by destruct (Py.for_each (crt_entry_body domain) data ∅) as [s' [x|]].
Qed.

(** crt.sh is asked at least once, and the query never sleeps after its
    last request: whatever the answers, no pause follows the final
    attempt, and every pause lasts [RETRY_DELAY] times 1 or 2. *)
Theorem query_crtsh_no_pause_at_end crtsh domain :
  last (Spec.rounds (_query_crtsh crtsh domain).1) = Some []
  ∧ 1 ≤ length (Spec.rounds (_query_crtsh crtsh domain).1)
  ∧ ∀ q, q ∈ More.sleeps (_query_crtsh crtsh domain).1 →
         q = inject_Z RETRY_DELAY ∨ q = inject_Z (RETRY_DELAY * 2).
Proof.
  pose proof (crtsh_attempts_last crtsh domain MAX_RETRIES 0 eq_refl
                ltac:(unfold MAX_RETRIES; lia)) as Hl.
  fold (_query_crtsh crtsh domain) in Hl.
  split; [done |]. split.
  { destruct (Spec.rounds _); [done | simpl; lia]. }
  clear Hl. unfold _query_crtsh, MAX_RETRIES. intros q.
  assert (∀ t : Py.trace, ∀ r : Py.result (gset string),
            More.sleeps ([Py.HttpGet (CRT_SH_URL domain)], r).1 = []) as Hs
    by done.
  simpl.
  destruct (crtsh 0) as [| |c0 b0]; [| | destruct (c0 =? 503)%Z;
    [| destruct (raise_for_status c0);
       [| destruct b0 as [| |d0|];
          [| | destruct (Py.for_each (crt_entry_body domain) d0 ∅) as [? [?|]] |]]]];
  (destruct (crtsh 1) as [| |c1 b1]; [| | destruct (c1 =? 503)%Z;
    [| destruct (raise_for_status c1);
       [| destruct b1 as [| |d1|];
          [| | destruct (Py.for_each (crt_entry_body domain) d1 ∅) as [? [?|]] |]]]]);
  (destruct (crtsh 2) as [| |c2 b2]; [| | destruct (c2 =? 503)%Z;
    [| destruct (raise_for_status c2);
       [| destruct b2 as [| |d2|];
          [| | destruct (Py.for_each (crt_entry_body domain) d2 ∅) as [? [?|]] |]]]]);
  simpl; rewrite ?elem_of_cons, ?elem_of_nil; intuition (subst; auto).
Qed.

End MoreRetry.

(** ** More on resolution *)

Section MoreResolve.
Import DnsResolver.

(** Every entry of the map that [resolve_bulk] returns is consistent: its
    key is one of the input names and is the [subdomain] of its record;
    the record is alive exactly when it has an address and exactly when it
    has no error; and only an alive record has an alias. *)
Theorem resolve_bulk_records_consistent (self : DNSResolver)
    (completed : list nat) (names : list string)
    (results : gmap string DNSResult) (sub : string) (r : DNSResult) :
  resolve_bulk self completed names = Py.Ok results →
  results !! sub = Some r →
  sub ∈ names
  ∧ subdomain r = sub
  ∧ (is_alive r = true ↔ is_Some (ip r))
  ∧ (is_alive r = true ↔ error r = None)
  ∧ (is_Some (cname r) → is_alive r = true).
Proof.
  unfold resolve_bulk, resolve_bulk_with.
  destruct (_ <=? 0)%Z; [done |]. intros [= <-] Hr.
  split.
  { assert (is_Some (collect_all
                       (submit_all (λ sub, Py.Ok (resolve_single self sub).2) names)
                       completed ∅ !! sub)) as Hs by by rewrite Hr.
    apply (proj1 (collect_all_lookup _ names completed ∅ sub)) in Hs
      as [[? Hs] | (i & _ & Hi)].
    - by rewrite lookup_empty in Hs.
    - by apply list_elem_of_lookup_2 in Hi. }
  apply (proj2 (collect_all_lookup _ names completed ∅ sub)) in Hr.
  2: { intros r'. by rewrite lookup_empty. }
  subst r. unfold Spec.kept, resolve_single.
  destruct (resolve_A (resolver self) sub); simpl;
    repeat split; try done; try (by intros [? ?]); by eauto.
Qed.

Lemma resolve_bulk_records_consistent_witness :
  "a.example.com" ∈ ["a.example.com"]
  ∧ subdomain (mkDNSResult "a.example.com" None false None (Some "NXDOMAIN"))
    = "a.example.com"
  ∧ (false = true ↔ is_Some (@None string))
  ∧ (false = true ↔ Some "NXDOMAIN" = None)
  ∧ (is_Some (@None string) → false = true).
Proof.
  apply (resolve_bulk_records_consistent
           (mkDNSResolver 3 50 Scenarios.dead_dns) [0] ["a.example.com"]
           {[ "a.example.com" :=
                mkDNSResult "a.example.com" None false None (Some "NXDOMAIN") ]}
           "a.example.com"
           (mkDNSResult "a.example.com" None false None (Some "NXDOMAIN")));
    vm_compute; reflexivity.
Defined.

End MoreResolve.

Section MoreThreads.
Import PyStr Overseer.

(** With a pool size of zero or less, a run whose enumeration is not
    empty ends in ValueError as soon as the resolver is called: nothing is
    resolved, and [main] reports a fatal error and lets the exception
    through. *)
Theorem run_reconnaissance_no_threads (rt : runtime) (w : world) (args : Args)
    (subdomains : gset string) :
  (threads args ≤ 0)%Z →
  (CtEnum.enumerate (providers w) (target_of args)).2 = Py.Ok subdomains →
  subdomains ≠ ∅ →
  run_reconnaissance rt w args
  = ([Phase 1; CallEnumerate (target_of args); Phase 2;
      CallResolveBulk (subdomain_list_of (target_of args) subdomains)],
     Py.Raise (Py.ValueError "max_workers must be greater than 0"))
  ∧ main (run_end_of (run_reconnaissance rt w args).2)
    = ([FatalError (Py.ValueError "max_workers must be greater than 0")],
       Propagate (Py.ValueError "max_workers must be greater than 0")).
Proof.
  intros Ht He Hne.
  assert (run_reconnaissance rt w args
          = ([Phase 1; CallEnumerate (target_of args); Phase 2;
              CallResolveBulk (subdomain_list_of (target_of args) subdomains)],
             Py.Raise (Py.ValueError "max_workers must be greater than 0")))
    as Hrun.
  { unfold run_reconnaissance. rewrite He, decide_False by done.
    unfold dns_phase, DnsResolver.resolve_bulk, DnsResolver.resolve_bulk_with.
    cbn [DnsResolver.max_workers].
    destruct (Z.leb_spec (threads args) 0) as [_ | ?]; [done | lia]. }
  split; [done |]. by rewrite Hrun.
Qed.

Lemma run_reconnaissance_no_threads_witness :
  run_reconnaissance Scenarios.in_order Scenarios.world_live More.args_no_threads
  = ([Phase 1; CallEnumerate (target_of More.args_no_threads); Phase 2;
      CallResolveBulk
        (subdomain_list_of (target_of More.args_no_threads)
           {[ "api.example.com"; "old.example.com" ]})],
     Py.Raise (Py.ValueError "max_workers must be greater than 0"))
  ∧ main (run_end_of (run_reconnaissance Scenarios.in_order Scenarios.world_live
                        More.args_no_threads).2)
    = ([FatalError (Py.ValueError "max_workers must be greater than 0")],
       Propagate (Py.ValueError "max_workers must be greater than 0")).
Proof.
  apply (run_reconnaissance_no_threads Scenarios.in_order Scenarios.world_live
           More.args_no_threads {[ "api.example.com"; "old.example.com" ]}).
  - vm_compute. discriminate.
  - vm_compute. reflexivity.
  - apply non_empty_inhabited_L with "api.example.com".
    apply elem_of_union_l, elem_of_singleton. reflexivity.
Defined.

End MoreThreads.

(** ** More on geolocation *)

Section MoreGeo.
Import GeoIntel GeoSingle.

(** The single-address path agrees with the batch path: for the address
    that an object carries under [query], [locate_single] builds the very
    record that [locate_batch] stores for that object; the record it
    returns always bears the address asked; a failed request gives the
    failure record; and the record is a success exactly when the provider
    answered with the status [success]. *)
Theorem locate_single_matches_batch (item : geo_item)
    (provider : single_response) (ip : string) :
  (locate_single (SingleJson item) (query_of item)).2 = of_item item
  ∧ GeoIntel.ip (locate_single provider ip).2 = ip
  ∧ (locate_single SingleFailed ip).2 = failed ip
  ∧ (success (locate_single provider ip).2 = true
     ↔ ∃ data, provider = SingleJson data ∧ i_status data = Some "success").
Proof.
  split; [done |]. split.
  { destruct provider as [|data]; simpl; [done |]. by case_decide. }
  split; [done |].
  destruct provider as [|data]; simpl.
  - split; [done | by intros (? & ? & _)].
  - case_decide as Hs; simpl.
    + split; [by eauto | done].
    + split; [done | intros (d & [= <-] & ?); done].
Qed.

Lemma posts_batch_events provider n first (batches : list (list string)) :
  More.posts (Spec.batch_events provider n first batches) = batches.
Proof.
  revert first. induction batches as [|batch batches IH]; intros first;
    [done |].
  simpl. unfold More.posts in *. rewrite omap_app, IH.
  by destruct (_ && _).
Qed.

Lemma range_step_lt (len i : nat) :
  i ∈ range_step len BATCH_SIZE → i < len.
Proof.
  unfold range_step, BATCH_SIZE.
  intros (k & -> & Hk)%list_elem_of_fmap. apply elem_of_seq in Hk.
  pose proof (Nat.Div0.mul_div_le (len + 100 - 1) 100). lia.
Qed.

Lemma make_batches_nonempty (l batch : list string) :
  batch ∈ make_batches l → 0 < length batch.
Proof.
  unfold make_batches. intros (i & -> & Hi)%list_elem_of_fmap.
  apply range_step_lt in Hi. rewrite length_take, length_drop.
  unfold BATCH_SIZE. lia.
Qed.

(** Whatever the provider answers, [locate_batch] posts every
    deduplicated address exactly once: the payloads of its requests, in
    order, are consecutive slices of the deduplicated list, none empty and
    none longer than [BATCH_SIZE]. *)
Theorem locate_batch_posts (set_order : gset string → list string)
    (provider : nat → batch_response) (ips : list string) :
  concat (More.posts (locate_batch set_order provider ips).1)
  = set_order (list_to_set ips)
  ∧ ∀ payload, payload ∈ More.posts (locate_batch set_order provider ips).1 →
               0 < length payload ≤ BATCH_SIZE.
Proof.
  rewrite locate_batch_trace, posts_batch_events. split.
  - apply concat_make_batches.
  - intros payload Hp. split;
      [by apply (make_batches_nonempty _ _ Hp)
      | by apply (elem_of_make_batches _ _ Hp)].
Qed.

Lemma batch_events_head provider n first (batches : list (list string)) :
  batches ≠ [] →
  ∃ batch rest,
    Spec.batch_events provider n first batches
    = Py.HttpPost BATCH_API batch :: rest.
Proof. destruct batches as [|batch batches]; [done |]. simpl. by eauto. Qed.

Lemma batch_events_pauses provider n (batches : list (list string)) :
  ∀ first, first + length batches = n →
    (∀ q, last (Spec.batch_events provider n first batches) ≠ Some (Py.Sleep q))
    ∧ length (More.sleeps (Spec.batch_events provider n first batches))
      ≤ length batches - 1
    ∧ ∀ q, q ∈ More.sleeps (Spec.batch_events provider n first batches) →
           q = RATE_LIMIT_DELAY.
Proof.
  induction batches as [|batch batches IH]; intros first Hn.
  { split; [done |]. split; [done |]. intros q H. by apply elem_of_nil in H. }
  simpl in Hn. destruct (IH (S first) ltac:(lia)) as (Hl & Hc & Hq).
  simpl. destruct batches as [|batch' batches].
  - simpl in Hn. simpl. rewrite bool_decide_false by lia.
    rewrite andb_false_r. simpl.
    split; [done |]. split; [done |]. intros q H. by apply elem_of_nil in H.
  - destruct (batch_events_head provider n (S first) (batch' :: batches))
      as (b & rest & He); [done |].
    rewrite He in *. clear He.
    destruct (_ && _); simpl in *.
    + split; [exact Hl |]. split; [lia |].
      intros q [-> | H]%elem_of_cons; [done | by apply Hq].
    + split; [exact Hl |]. split; [lia | exact Hq].
Qed.

(** [locate_batch] never ends with a pause and never pauses more often
    than it has batches to separate; every pause lasts
    [RATE_LIMIT_DELAY]. *)
Theorem locate_batch_pauses (set_order : gset string → list string)
    (provider : nat → batch_response) (ips : list string) :
  (∀ q, last (locate_batch set_order provider ips).1 ≠ Some (Py.Sleep q))
  ∧ length (More.sleeps (locate_batch set_order provider ips).1)
    ≤ length (More.posts (locate_batch set_order provider ips).1) - 1
  ∧ ∀ q, q ∈ More.sleeps (locate_batch set_order provider ips).1 →
         q = RATE_LIMIT_DELAY.
Proof.
  rewrite locate_batch_trace, posts_batch_events.
  by apply batch_events_pauses.
Qed.

End MoreGeo.

(** ** Failures of the geolocation provider *)

Section MoreGeoFailures.
Import GeoIntel.

Lemma for_each_item_body_mono (data : list json_item)
    (results : gmap string GeoData) (x : string) :
  is_Some (results !! x) →
  is_Some ((Py.for_each item_body data results).1 !! x).
Proof.
  revert results. induction data as [|[item|] data IH]; intros results Hx;
    simpl; [done | | done].
  apply IH. destruct (decide (query_of item = x)) as [-> | Hne].
  - rewrite lookup_insert_eq. by eauto.
  - by rewrite lookup_insert_ne.
Qed.

Lemma mark_failed_mono (batch : list string) (results : gmap string GeoData)
    (x : string) :
  is_Some (results !! x) → is_Some (mark_failed batch results !! x).
Proof. intros [v Hv]. rewrite mark_failed_lookup, Hv. by eauto. Qed.

Lemma mark_failed_covers (batch : list string) (results : gmap string GeoData)
    (x : string) :
  x ∈ batch → is_Some (mark_failed batch results !! x).
Proof.
  intros Hx. rewrite mark_failed_lookup.
  destruct (results !! x); [by eauto |]. rewrite decide_True by done. by eauto.
Qed.

Lemma batch_results_mono provider (results : gmap string GeoData)
    (ib : nat * list string) (x : string) :
  is_Some (results !! x) →
  is_Some (Spec.batch_results provider results ib !! x).
Proof.
  intros Hx. unfold Spec.batch_results.
  destruct (provider ib.1) as [|data]; [by apply mark_failed_mono |].
  pose proof (for_each_item_body_mono data results x Hx) as Hm.
  destruct (Py.for_each item_body data results) as [r [e|]]; simpl in Hm;
    [by apply mark_failed_mono | done].
Qed.

Lemma foldl_batch_results_mono provider (l : list (nat * list string))
    (results : gmap string GeoData) (x : string) :
  is_Some (results !! x) →
  is_Some (foldl (Spec.batch_results provider) results l !! x).
Proof.
  revert results. induction l as [|ib l IH]; intros results Hx; simpl;
    [done |].
  by apply IH, batch_results_mono.
Qed.

Lemma batch_results_unanswered provider (results : gmap string GeoData)
    (i : nat) (batch : list string) (x : string) :
  Spec.answered (provider i) = false → x ∈ batch →
  is_Some (Spec.batch_results provider results (i, batch) !! x).
Proof.
  intros Ha Hx. unfold Spec.batch_results. cbn [fst snd].
  destruct (provider i) as [|data]; [by apply mark_failed_covers |].
  pose proof (for_each_item_body_end data results) as He. rewrite Ha in He.
  destruct (Py.for_each item_body data results) as [r [e|]]; simpl in He;
    [by apply mark_failed_covers | done].
Qed.

(** The addresses of a batch whose request fails, or whose answer holds
    something that is not an object, are all keys of the map that
    [locate_batch] returns, whatever the provider answers to the other
    batches. *)
Theorem locate_batch_failed_batch_recorded
    (set_order : gset string → list string)
    (provider : nat → batch_response) (ips : list string)
    (i : nat) (batch : list string) (x : string) :
  make_batches (set_order (list_to_set ips)) !! i = Some batch →
  Spec.answered (provider i) = false →
  x ∈ batch →
  is_Some ((locate_batch set_order provider ips).2 !! x).
Proof.
  intros Hi Ha Hx. unfold locate_batch. rewrite foldl_batch_results.
  cbn [fst snd].
  remember (make_batches (set_order (list_to_set ips))) as B eqn:HB. clear HB.
  rewrite <- (take_drop_middle B i batch Hi).
  rewrite imap_app, foldl_app.
  change (imap ?f (batch :: ?l)) with (f 0 batch :: imap (f ∘ S) l).
  change (foldl ?f ?a (?y :: ?l)) with (foldl f (f a y) l).
  apply foldl_batch_results_mono. cbv beta.
  rewrite Nat.add_0_r, length_take_le by (apply lookup_lt_Some in Hi; lia).
  by apply batch_results_unanswered.
Qed.

(** 150 addresses, the request of the second batch failing: an address
    of the second batch is a key of the map. *)
Lemma locate_batch_failed_batch_recorded_witness :
  is_Some ((locate_batch elements Scenarios.second_batch_fails
              Scenarios.addresses150).2 !! "10.0.0.104").
Proof.
  apply (locate_batch_failed_batch_recorded elements
           Scenarios.second_batch_fails Scenarios.addresses150 1
           (drop 100 (elements (list_to_set Scenarios.addresses150 : gset string)))
           "10.0.0.104").
  - vm_compute. reflexivity.
  - reflexivity.
  - apply list_elem_of_In. vm_compute. tauto.
Defined.

Section Invariant.

Variable P : string → GeoData → Prop.
Variable provider : nat → batch_response.
Hypothesis P_failed : ∀ x, P x (failed x).
Hypothesis P_item :
  ∀ i data item, provider i = BatchJson data → Item item ∈ data →
                 P (query_of item) (of_item item).

Lemma mark_failed_inv (batch : list string) (results : gmap string GeoData) :
  map_Forall P results → map_Forall P (mark_failed batch results).
Proof.
  intros HR k g. rewrite mark_failed_lookup.
  destruct (results !! k) as [v|] eqn:Hk.
  - intros [= <-]. by apply (HR k).
  - case_decide; [intros [= <-]; apply P_failed | done].
Qed.

Lemma for_each_inv (data : list json_item) (results : gmap string GeoData) :
  (∀ item, Item item ∈ data → P (query_of item) (of_item item)) →
  map_Forall P results →
  map_Forall P (Py.for_each item_body data results).1.
Proof.
  revert results. induction data as [|[item|] data IH]; intros results Hd HR;
    simpl; [done | | done].
  apply IH.
  - intros it Hit. apply Hd. by apply list_elem_of_further.
  - apply map_Forall_insert_2; [| done]. apply Hd, list_elem_of_here.
Qed.

Lemma batch_results_inv (results : gmap string GeoData)
    (ib : nat * list string) :
  map_Forall P results →
  map_Forall P (Spec.batch_results provider results ib).
Proof.
  intros HR. unfold Spec.batch_results.
  destruct (provider ib.1) as [|data] eqn:Hp; [by apply mark_failed_inv |].
  pose proof (for_each_inv data results
                (λ item, P_item ib.1 data item Hp) HR) as Hf.
  destruct (Py.for_each item_body data results) as [r [e|]]; simpl in Hf;
    [by apply mark_failed_inv | done].
Qed.

Lemma foldl_batch_results_inv (l : list (nat * list string))
    (results : gmap string GeoData) :
  map_Forall P results →
  map_Forall P (foldl (Spec.batch_results provider) results l).
Proof.
  revert results. induction l as [|ib l IH]; intros results HR; simpl;
    [done |].
  by apply IH, batch_results_inv.
Qed.

End Invariant.

(** Every entry of the map that [locate_batch] returns is well formed,
    whatever the provider answers: the record bears its own key as
    address; a record that is not a success is the bare failure record of
    its key; and a record that is a success was sent by the provider, in
    the answer to one of the requests, with the status [success]. *)
Theorem locate_batch_records_wellformed
    (set_order : gset string → list string)
    (provider : nat → batch_response) (ips : list string) :
  map_Forall
    (λ key g,
       GeoIntel.ip g = key
       ∧ (success g = false → g = failed key)
       ∧ (success g = true →
          ∃ i data item,
            provider i = BatchJson data ∧ Item item ∈ data
            ∧ i_status item = Some "success" ∧ query_of item = key
            ∧ g = of_item item))
    (locate_batch set_order provider ips).2.
Proof.
  unfold locate_batch. rewrite foldl_batch_results.
  apply foldl_batch_results_inv with (provider := provider).
  - intros x. split; [done |]. split; [done | intros; discriminate].
  - intros i data item Hp Hi.
    assert (GeoIntel.ip (of_item item) = query_of item) as Hk.
    { unfold of_item. by case_decide. }
    assert (success (of_item item) = false →
            of_item item = failed (query_of item)) as Hf.
    { unfold of_item. by case_decide. }
    assert (success (of_item item) = true → i_status item = Some "success")
      as Hs.
    { unfold of_item. by case_decide. }
    split; [done |]. split; [done |]. intros Ht.
    exists i, data, item. by auto.
  - apply map_Forall_empty.
Qed.

Lemma foldl_batch_results_down provider (batches : list (list string)) :
  (∀ i, provider i = BatchFailed) →
  ∀ first results x,
    foldl (Spec.batch_results provider) results
      (imap (λ i, pair (first + i)) batches) !! x
    = match results !! x with
      | Some v => Some v
      | None => if decide (x ∈ concat batches) then Some (failed x) else None
      end.
Proof.
  intros Hp. induction batches as [|batch batches IH]; intros first results x.
  { simpl. destruct (results !! x); [done |].
    by destruct (decide (x ∈ [])) as [H%elem_of_nil | _]. }
  change (imap (λ i, pair (first + i)) (batch :: batches))
    with ((first + 0, batch) :: imap ((λ i, pair (first + i)) ∘ S) batches).
  change (foldl ?f ?a (?y :: ?l)) with (foldl f (f a y) l).
  rewrite (imap_ext _ (λ i, pair (S first + i)))
    by (intros; simpl; f_equal; lia).
  rewrite IH. unfold Spec.batch_results at 1. rewrite Hp. cbn [fst snd].
  rewrite mark_failed_lookup. simpl concat.
  destruct (results !! x); [done |].
  destruct (decide (x ∈ batch)) as [Hb | Hb].
  - by rewrite decide_True by (apply elem_of_app; by left).
  - apply decide_ext. rewrite elem_of_app. by intuition.
Qed.

Lemma locate_batch_down_lookup (set_order : gset string → list string)
    (provider : nat → batch_response) (ips : list string) (x : string) :
  (∀ i, provider i = BatchFailed) →
  (locate_batch set_order provider ips).2 !! x
  = if decide (x ∈ set_order (list_to_set ips)) then Some (failed x) else None.
Proof.
  intros Hp. unfold locate_batch. rewrite foldl_batch_results. cbn [fst snd].
  etrans; [exact (foldl_batch_results_down provider _ Hp 0 ∅ x) |].
  by rewrite concat_make_batches.
Qed.

(** When every request to the provider fails, [locate_batch] still
    returns a record for each input address and for nothing else, and
    each record is the bare failure record of its address. *)
Theorem locate_batch_provider_down (set_order : gset string → list string)
    (provider : nat → batch_response) (ips : list string) :
  (∀ i, provider i = BatchFailed) →
  (∀ x, x ∈ set_order (list_to_set ips) ↔ x ∈ ips) →
  ∀ x, (locate_batch set_order provider ips).2 !! x
       = if decide (x ∈ ips) then Some (failed x) else None.
Proof.
  intros Hp Hs x. rewrite locate_batch_down_lookup by done.
  apply decide_ext, Hs.
Qed.

(** Three addresses, one of them twice, and an address that was not
    asked. *)
Lemma locate_batch_provider_down_witness :
  (locate_batch elements More.geo_down
     ["8.8.8.8"; "1.1.1.1"; "8.8.8.8"]).2 !! "8.8.8.8"
  = Some (failed "8.8.8.8")
  ∧ (locate_batch elements More.geo_down
       ["8.8.8.8"; "1.1.1.1"; "8.8.8.8"]).2 !! "9.9.9.9"
    = None.
Proof.
  assert (∀ x, x ∈ elements (list_to_set ["8.8.8.8"; "1.1.1.1"; "8.8.8.8"]
                               : gset string)
               ↔ x ∈ ["8.8.8.8"; "1.1.1.1"; "8.8.8.8"]) as Hs.
  { intros x. by rewrite elem_of_elements, elem_of_list_to_set. }
  split.
  - exact (locate_batch_provider_down elements More.geo_down
             ["8.8.8.8"; "1.1.1.1"; "8.8.8.8"] (λ _, eq_refl) Hs "8.8.8.8").
  - exact (locate_batch_provider_down elements More.geo_down
             ["8.8.8.8"; "1.1.1.1"; "8.8.8.8"] (λ _, eq_refl) Hs "9.9.9.9").
Defined.

End MoreGeoFailures.

Section MoreResolveOrder.
Import DnsResolver.



End MoreResolveOrder.

(** ** More on the orchestrator *)

Section MoreRun.
Import PyStr Overseer.

Lemma dns_phase_keys rt w args subdomain_list dns_results sub r :
  dns_phase rt w args subdomain_list = Py.Ok dns_results →
  dns_results !! sub = Some r → sub ∈ subdomain_list.
Proof.
  unfold dns_phase, DnsResolver.resolve_bulk, DnsResolver.resolve_bulk_with.
  destruct (_ <=? 0)%Z; [done |]. intros [= <-] Hr.
  apply mk_is_Some in Hr.
  apply (proj1 (collect_all_lookup _ _ _ ∅ sub)) in Hr
    as [[? Hs] | (i & _ & Hi)].
  - by rewrite lookup_empty in Hs.
  - by apply list_elem_of_lookup_2 in Hi.
Qed.

(** What a run that returns a data frame has gone through. *)
Lemma run_reconnaissance_returns rt w args df :
  (run_reconnaissance rt w args).2 = Py.Ok (Some df) →
  ∃ subdomains dns_results geo_results,
    (CtEnum.enumerate (providers w) (target_of args)).2 = Py.Ok subdomains
    ∧ dns_phase rt w args (subdomain_list_of (target_of args) subdomains)
      = Py.Ok dns_results
    ∧ filter alive_with_ip dns_results ≠ ∅
    ∧ geo_results
      = (GeoIntel.locate_batch (set_order rt) (geo_provider w)
           (set_order rt
              (list_to_set
                 (omap (λ kv, DnsResolver.ip kv.2)
                    (map_to_list (filter alive_with_ip dns_results)))))).2
    ∧ df = map (make_record geo_results)
             (map_to_list (filter alive_with_ip dns_results))
    ∧ ∀ st, st ∈ (run_reconnaissance rt w args).1 →
            st ∈ tactical_output args df
            ∨ ∀ n path, st ≠ CallGenerate n path ∧ st ≠ CallToCsv path.
Proof.
  unfold run_reconnaissance.
  destruct (CtEnum.enumerate (providers w) (target_of args)).2
    as [subdomains | e]; [| done].
  destruct (decide (subdomains = ∅)); [done |].
  destruct (dns_phase rt w args _) as [dns_results | e] eqn:Hd; [| done].
  destruct (decide (filter alive_with_ip dns_results = ∅)); [done |].
  cbn [fst snd]. intros [= <-].
  exists subdomains, dns_results. eexists.
  split; [done |]. split; [done |]. split; [done |]. split; [reflexivity |].
  split; [reflexivity |].
  intros st. rewrite !elem_of_app, !elem_of_cons, elem_of_nil.
  intros [[[-> | [-> | []]] | [-> | [-> | []]]]
          | [[-> | [-> | [-> | [-> | []]]]] | Hst]];
    try (by right); by left.
Qed.

Lemma r_subdomain_make_record geo_results
    (l : list (string * DnsResolver.DNSResult)) :
  map r_subdomain (map (make_record geo_results) l) = map fst l.
Proof.
  rewrite map_map. apply map_ext. by intros [sub d].
Qed.

(** The data frame that a run returns has at least one row and no two
    rows for one name; the name of every row is the target or one of the
    names that the enumeration returned, the name servers answered the
    address lookup for it, and the row carries the text of the first
    address of that answer. *)
Theorem run_reconnaissance_frame (rt : runtime) (w : world) (args : Args)
    (df : list record) :
  (run_reconnaissance rt w args).2 = Py.Ok (Some df) →
  df ≠ []
  ∧ NoDup (map r_subdomain df)
  ∧ ∀ row, row ∈ df →
      (r_subdomain row = target_of args
       ∨ ∃ subdomains,
           (CtEnum.enumerate (providers w) (target_of args)).2
           = Py.Ok subdomains
           ∧ r_subdomain row ∈ subdomains)
      ∧ ∃ first others,
          DnsResolver.resolve_A (nameservers w) (r_subdomain row)
          = DnsResolver.Answer first others
          ∧ r_ip row = DnsResolver.ipv4_str first.
Proof.
  intros Hrun.
  destruct (run_reconnaissance_returns rt w args df Hrun)
    as (subdomains & dns_results & geo_results & He & Hd & Hne & _ & -> & _).
  split.
  { destruct (map_to_list (filter alive_with_ip dns_results)) eqn:Hl;
      [| done].
    by apply map_to_list_empty_iff in Hl. }
  split.
  { rewrite r_subdomain_make_record. apply NoDup_fst_map_to_list. }
  intros row ([sub d] & -> & Hkv)%list_elem_of_fmap.
  apply elem_of_map_to_list, map_lookup_filter_Some in Hkv as [Hr [Ha _]].
  cbn [fst snd] in Ha. split.
  - apply (dns_phase_keys _ _ _ _ _ _ _ Hd), elem_of_subdomain_list_of in Hr
      as [Hr | ->]; [right | by left].
    by exists subdomains.
  - apply (dns_phase_records _ _ _ _ _ _ _ Hd) in Hr. subst d.
    revert Ha. unfold make_record, DnsResolver.resolve_single.
    cbn [DnsResolver.resolver].
    destruct (DnsResolver.resolve_A (nameservers w) sub)
      as [first others| | | |] eqn:HA; simpl; try done.
    intros _. by exists first, others.
Qed.

(** crt.sh knows two names; the target and one of them have an address. *)
Lemma run_reconnaissance_frame_witness :
  ∃ df,
    (run_reconnaissance Scenarios.in_order More.world_geo_up
       Scenarios.args_example).2 = Py.Ok (Some df)
    ∧ df ≠ []
    ∧ NoDup (map r_subdomain df)
    ∧ ∀ row, row ∈ df →
        (r_subdomain row = target_of Scenarios.args_example
         ∨ ∃ subdomains,
             (CtEnum.enumerate (providers More.world_geo_up)
                (target_of Scenarios.args_example)).2 = Py.Ok subdomains
             ∧ r_subdomain row ∈ subdomains)
        ∧ ∃ first others,
            DnsResolver.resolve_A (nameservers More.world_geo_up)
              (r_subdomain row)
            = DnsResolver.Answer first others
            ∧ r_ip row = DnsResolver.ipv4_str first.
Proof.
  eexists. split; [vm_compute; reflexivity |].
  apply (run_reconnaissance_frame Scenarios.in_order More.world_geo_up
           Scenarios.args_example).
  vm_compute. reflexivity.
Defined.

Lemma tactical_output_writes args df st :
  st ∈ tactical_output args df →
  match st with
  | CallGenerate n path =>
      no_map args = false ∧ path = output args
      ∧ n = length (filter (λ r, has_coordinates r = true) df) ∧ 0 < n
  | CallToCsv path => csv args = Some path ∧ path ≠ ""
  | _ => True
  end.
Proof.
  unfold tactical_output. rewrite !elem_of_app, !elem_of_cons.
  intros [[-> | [-> | Hst]] | [Hst | Hst]]; [done | done | | |].
  - by apply elem_of_nil in Hst.
  - destruct (no_map args); [by apply elem_of_nil in Hst |].
    destruct (filter _ df) as [|r l] eqn:Hf; [by apply elem_of_nil in Hst |].
    apply list_elem_of_singleton in Hst. subst st.
    repeat split; simpl; lia.
  - destruct (csv args) as [path|]; [| by apply elem_of_nil in Hst].
    destruct path as [|c path]; [by apply elem_of_nil in Hst |].
    apply list_elem_of_singleton in Hst. by subst st.
Qed.





End MoreRun.

Section MoreResolverInput.
Import PyStr Overseer.

Lemma str_le_total : Total str_le.
Proof.
  intros a b. unfold str_le.
  destruct (String.leb_total a b) as [H | H]; rewrite H; [by left | by right].
Qed.

Lemma resolver_call rt w args l :
  CallResolveBulk l ∈ (run_reconnaissance rt w args).1 →
  ∃ subdomains,
    (CtEnum.enumerate (providers w) (target_of args)).2 = Py.Ok subdomains
    ∧ subdomains ≠ ∅
    ∧ l = subdomain_list_of (target_of args) subdomains.
Proof.
  unfold run_reconnaissance.
  destruct (CtEnum.enumerate (providers w) (target_of args)).2
    as [subdomains | e]; cbn [fst snd].
  2: { rewrite !elem_of_cons, elem_of_nil. by intros [? | [? | []]]. }
  destruct (decide (subdomains = ∅)); cbn [fst snd].
  { rewrite !elem_of_cons, elem_of_nil. by intros [? | [? | []]]. }
  intros Hin. exists subdomains. split; [done |]. split; [done |].
  revert Hin.
  destruct (dns_phase rt w args _) as [dns_results | e]; cbn [fst snd].
  2: { rewrite !elem_of_app, !elem_of_cons, elem_of_nil.
       by intros [[? | [? | []]] | [? | [[= ->] | []]]]. }
  destruct (decide (filter alive_with_ip dns_results = ∅)); cbn [fst snd].
  { rewrite !elem_of_app, !elem_of_cons, elem_of_nil.
    by intros [[? | [? | []]] | [? | [[= ->] | []]]]. }
  rewrite !elem_of_app, !elem_of_cons, elem_of_nil.
  intros [[[? | [? | []]] | [? | [[= ->] | []]]]
          | [[? | [? | [? | [? | []]]]] | Hst]]; try done.
  apply tactical_output_steps in Hst
    as [? | [? | [(? & ? & ?) | (? & ?)]]]; done.
Qed.

(** The list that a run hands to the resolver is sorted by code points,
    names no host twice, and holds exactly the names that the enumeration
    returned and the target; the resolver is called only when the
    enumeration returned at least one name. *)
Theorem run_reconnaissance_resolver_input (rt : runtime) (w : world)
    (args : Args) (l : list string) :
  CallResolveBulk l ∈ (run_reconnaissance rt w args).1 →
  Sorted str_le l
  ∧ NoDup l
  ∧ ∃ subdomains,
      (CtEnum.enumerate (providers w) (target_of args)).2 = Py.Ok subdomains
      ∧ subdomains ≠ ∅
      ∧ ∀ x, x ∈ l ↔ x ∈ subdomains ∨ x = target_of args.
Proof.
  intros (subdomains & He & Hne & ->)%resolver_call.
  split; [apply Sorted_merge_sort, str_le_total |]. split.
  - unfold subdomain_list_of, sorted. rewrite merge_sort_Permutation.
    apply NoDup_elements.
  - exists subdomains. split; [done |]. split; [done |].
    intros x. apply elem_of_subdomain_list_of.
Qed.

(** crt.sh knows two names of the target. *)
Lemma run_reconnaissance_resolver_input_witness :
  Sorted str_le ["api.example.com"; "example.com"; "old.example.com"]
  ∧ NoDup ["api.example.com"; "example.com"; "old.example.com"]
  ∧ ∃ subdomains,
      (CtEnum.enumerate (providers Scenarios.world_live)
         (target_of Scenarios.args_example)).2 = Py.Ok subdomains
      ∧ subdomains ≠ ∅
      ∧ ∀ x, x ∈ ["api.example.com"; "example.com"; "old.example.com"]
             ↔ x ∈ subdomains ∨ x = target_of Scenarios.args_example.
Proof.
  apply (run_reconnaissance_resolver_input Scenarios.in_order
           Scenarios.world_live Scenarios.args_example).
  apply list_elem_of_In. vm_compute. tauto.
Defined.

End MoreResolverInput.

(** ** More on the marker colours *)

Section MoreColour.
Import PyStr MapGenerator.

Lemma lower_char_idemp (c : ascii) : lower_char (lower_char c) = lower_char c.
Proof. destruct c as [[] [] [] [] [] [] [] []]; reflexivity. Qed.

Lemma lower_idemp (s : string) : lower (lower s) = lower s.
Proof.
  induction s as [|c s IH]; [done |]. simpl. by rewrite lower_char_idemp, IH.
Qed.

(** The colour of a marker is blind to the case of the two texts and to
    where the organization ends and the ISP begins: a fragment is found
    also when it straddles the two, and a missing text counts as the
    empty one on either side. *)
Theorem get_marker_color_case_and_boundary (a b c : string) :
  get_marker_color (Some (a +:+ b)) (Some c)
  = get_marker_color (Some a) (Some (b +:+ c))
  ∧ get_marker_color (Some (lower a)) (Some (lower b))
    = get_marker_color (Some a) (Some b)
  ∧ get_marker_color None (Some a) = get_marker_color (Some a) None
  ∧ get_marker_color (Some "Ama") (Some "zon") = "green".
Proof.
  unfold get_marker_color, or_empty. cbn [default from_option id].
  split; [by rewrite !lower_append, append_assoc |].
  split; [by rewrite !lower_idemp |].
  split; [| reflexivity].
  change (lower "") with "". by rewrite append_nil_l, append_empty_r.
Qed.

End MoreColour.
